(** * wp-calypso: section-loading middleware and purchase selectors

    A shallow embedding of [client/sections-middleware.js] (the page
    handler that lazily loads, initialises and activates a section) and
    of the purchase selectors exercised by the selector test-suite.

    The middleware is modelled as the event loop sees it: each macrotask
    (a route handler invocation, the settlement of a [preload] promise
    with its [then]/[catch]/[then] chain, a timer callback) is a step on
    an explicit world, and what it does to its collaborators (the store,
    the router, the bundle loader, the error display) is recorded as a
    list of effects. *)

From stdpp Require Import gmap strings list fin_maps pretty.
From Stdlib Require Import ZArith Ascii.


(** ** The section-loading middleware *)

Module Middleware.

(** An entry of [sections]: [envId] is absent on most sections. *)
Record SectionDefinition := {
  name : string;
  module : string;
  paths : list string;
  envId : option (list string)
}.

(** The page.js context handed to a route handler; [store] identifies
    [context.store]. *)
Record Context := {
  path : string;
  store : nat
}.

(** A module object produced by [preload], identified by its
    initialisation entry point [mod.default]. *)
Record LoadedModule := { moduleDefault : string }.

(** [controller.clientRouter]. *)
Inductive Router := clientRouter.

Inductive Action :=
| SECTION_SET (isLoading : bool)
| activateNextLayoutFocus
| bumpStat (group stat : string).

(** Calls made on the collaborators. [console.log] and [console.error]
    only print and are left out. In [step] every collaborator returns;
    [stepT] adds the [then] handler one of whose calls throws. *)
Inductive Effect :=
| setSection (sectionDefinition : SectionDefinition) (context : Context)
| dispatch (context : Context) (action : Action)
| next (context : Context)
| preload (sectionName : string)
| setTimeout (handle delay : nat)
| clearTimeout (handle : nat)
| init (m : LoadedModule) (router : Router)
| LoadingError_retry (sectionName : string)
| LoadingError_show (context : Context) (sectionName : string).

#[global] Instance SectionDefinition_eq_dec : EqDecision SectionDefinition.
Proof. solve_decision. Defined.
#[global] Instance Context_eq_dec : EqDecision Context.
Proof. solve_decision. Defined.
#[global] Instance LoadedModule_eq_dec : EqDecision LoadedModule.
Proof. solve_decision. Defined.
#[global] Instance Router_eq_dec : EqDecision Router.
Proof. solve_decision. Defined.
#[global] Instance Action_eq_dec : EqDecision Action.
Proof. solve_decision. Defined.
#[global] Instance Effect_eq_dec : EqDecision Effect.
Proof. solve_decision. Defined.

(** The closure of the [setTimeout] callback. *)
Record Timer := {
  deadline : nat;
  timerContext : Context;
  timerSection : string
}.

(** How a [preload] promise settles. The rejection reason is only
    printed. *)
Inductive Settlement :=
| Resolved (requiredModules : list LoadedModule)
| Rejected.

(** What the event loop runs. *)
Inductive Event :=
| RouteMatch (sectionDefinition : SectionDefinition) (context : Context)
| PreloadSettles (handle : nat) (outcome : Settlement)
| Tick.

#[global] Instance Settlement_eq_dec : EqDecision Settlement.
Proof. solve_decision. Defined.
#[global] Instance Event_eq_dec : EqDecision Event.
Proof. solve_decision. Defined.

Inductive TaskLabel :=
| HandlerTask (sectionDefinition : SectionDefinition) (context : Context)
| SettleTask (handle : nat) (sectionDefinition : SectionDefinition)
| TimerTask (handle : nat).

#[global] Instance TaskLabel_eq_dec : EqDecision TaskLabel.
Proof. solve_decision. Defined.

Record Task := {
  label : TaskLabel;
  effects : list Effect
}.

(** The module-level state, the error display's retry mark, and the
    event loop's pending promise chains and timers.

    One handler invocation creates one timer and one promise chain; both
    get the handle [nextId]. Timers are kept in creation order, which is
    also deadline order since every delay is the same. Section module
    identifiers are bundle paths, so the own-property lookup of a finite
    map stands for [_loadedSections[ m ]]. *)
Record World := {
  _loadedSections : gmap string bool;
  isRetry : bool;
  pending : gmap nat (SectionDefinition * Context);
  timers : list (nat * Timer);
  now : nat;
  nextId : nat
}.

Definition initial : World :=
  {| _loadedSections := ∅; isRetry := false; pending := ∅;
     timers := []; now := 0; nextId := 0 |}.

Definition isLoaded (w : World) (m : string) : bool :=
  default false (_loadedSections w !! m).

Definition markLoaded (m : string) (w : World) : World :=
  {| _loadedSections := <[m := true]> (_loadedSections w);
     isRetry := isRetry w; pending := pending w; timers := timers w;
     now := now w; nextId := nextId w |}.

Definition startLoad (sd : SectionDefinition) (ctx : Context) (w : World) : World :=
  {| _loadedSections := _loadedSections w;
     isRetry := isRetry w;
     pending := <[nextId w := (sd, ctx)]> (pending w);
     timers := timers w ++
       [(nextId w, {| deadline := now w + 400; timerContext := ctx;
                      timerSection := name sd |})];
     now := now w;
     nextId := S (nextId w) |}.

Definition dropPending (h : nat) (w : World) : World :=
  {| _loadedSections := _loadedSections w; isRetry := isRetry w;
     pending := delete h (pending w); timers := timers w;
     now := now w; nextId := nextId w |}.

Definition cancelTimer (h : nat) (w : World) : World :=
  {| _loadedSections := _loadedSections w; isRetry := isRetry w;
     pending := pending w;
     timers := filter (λ t, t.1 ≠ h) (timers w);
     now := now w; nextId := nextId w |}.

(** Modelled from the spec: [layout/error] is not part of the source. It
    is "an error-display utility with retry/idempotency tracking
    (isRetry / retry / show)": [retry] asks for the section to be loaded
    once more and from then on [isRetry] answers true. *)
Definition LoadingError_markRetry (w : World) : World :=
  {| _loadedSections := _loadedSections w; isRetry := true;
     pending := pending w; timers := timers w;
     now := now w; nextId := nextId w |}.

Section Handlers.

(** [config( 'env_id' )] and [process.env.NODE_ENV]. *)
Variable env_id : string.
Variable NODE_ENV : string.

Definition activateSection (sectionDefinition : SectionDefinition)
    (context : Context) : list Effect :=
  [ setSection sectionDefinition context;
    dispatch context (SECTION_SET false);
    dispatch context activateNextLayoutFocus;
    next context ].

(** [envId && envId.indexOf( config( 'env_id' ) ) === -1] *)
Definition envExcluded (sectionDefinition : SectionDefinition) : bool :=
  match envId sectionDefinition with
  | Some ids => bool_decide (env_id ∉ ids)
  | None => false
  end.

(** The handler registered by [createPageDefinition]. *)
Definition pageHandler (w : World) (sectionDefinition : SectionDefinition)
    (context : Context) : World * list Effect :=
  if envExcluded sectionDefinition then (w, [next context])
  else if isLoaded w (module sectionDefinition) then
    (w, activateSection sectionDefinition context)
  else
    (startLoad sectionDefinition context w,
     [ dispatch context (SECTION_SET true);
       setTimeout (nextId w) 400;
       preload (name sectionDefinition) ]).

(** [.then( requiredModules => ... )] when every call it makes returns;
    [thenCatch] below is the handler when one of them throws. *)
Definition onResolved (w : World) (sectionDefinition : SectionDefinition)
    (context : Context) (requiredModules : list LoadedModule)
    : World * list Effect :=
  if negb (isLoaded w (module sectionDefinition)) then
    (markLoaded (module sectionDefinition) w,
     map (λ m, init m clientRouter) requiredModules
       ++ activateSection sectionDefinition context)
  else (w, activateSection sectionDefinition context).

(** [.catch( error => ... )] *)
Definition onRejected (w : World) (sectionDefinition : SectionDefinition)
    (context : Context) : World * list Effect :=
  if negb (isRetry w) && negb (bool_decide (NODE_ENV = "development"%string)) then
    (LoadingError_markRetry w, [LoadingError_retry (name sectionDefinition)])
  else
    (w, [ dispatch context (SECTION_SET false);
          LoadingError_show context (name sectionDefinition) ]).

(** The whole chain hanging off one [preload] promise, run when it
    settles; the last [then] clears the timer on either path. *)
Definition settle (w : World) (handle : nat) (outcome : Settlement)
    : World * list Effect :=
  match pending w !! handle with
  | None => (w, [])
  | Some (sectionDefinition, context) =>
    let w1 := dropPending handle w in
    let r := match outcome with
             | Resolved requiredModules =>
                 onResolved w1 sectionDefinition context requiredModules
             | Rejected => onRejected w1 sectionDefinition context
             end in
    (cancelTimer handle r.1, r.2 ++ [clearTimeout handle])
  end.

(** The timer callback:
    [() => dispatch( bumpStat( 'calypso_chunk_waiting', name ) )]. *)
Definition timerCallback (t : nat * Timer) : Task :=
  {| label := TimerTask t.1;
     effects := [ dispatch (timerContext t.2)
                    (bumpStat "calypso_chunk_waiting"%string (timerSection t.2)) ] |}.

Definition due (t : nat) (tm : nat * Timer) : bool :=
  bool_decide (deadline tm.2 ≤ t).

(** One time unit passes; every timer that is due runs, oldest first. *)
Definition tick (w : World) : World * list Task :=
  let t := S (now w) in
  ({| _loadedSections := _loadedSections w; isRetry := isRetry w;
      pending := pending w;
      timers := filter (λ tm, due t tm = false) (timers w);
      now := t; nextId := nextId w |},
   map timerCallback (filter (λ tm, due t tm = true) (timers w))).

Definition step (w : World) (e : Event) : World * list Task :=
  match e with
  | RouteMatch sectionDefinition context =>
      let r := pageHandler w sectionDefinition context in
      (r.1, [ {| label := HandlerTask sectionDefinition context;
                 effects := r.2 |} ])
  | PreloadSettles handle outcome =>
      match pending w !! handle with
      | None => (w, [])
      | Some (sectionDefinition, _) =>
          let r := settle w handle outcome in
          (r.1, [ {| label := SettleTask handle sectionDefinition;
                     effects := r.2 |} ])
      end
  | Tick => tick w
  end.

Fixpoint run (w : World) (events : list Event) : World * list Task :=
  match events with
  | [] => (w, [])
  | e :: rest =>
      let r := step w e in
      let r' := run r.1 rest in
      (r'.1, r.2 ++ r'.2)
  end.

(** [setupRoutes]: one handler per declared path. *)
Definition setupRoutes (sections : list SectionDefinition)
    : list (string * SectionDefinition) :=
  flat_map (λ section, map (λ p, (p, section)) (paths section)) sections.

End Handlers.

(** *** Observations on logs and worlds *)

Definition trace (log : list Task) : list Effect :=
  concat (map effects log).

Definition timerTasks (handle : nat) (log : list Task) : list Task :=
  filter (λ t, label t = TimerTask handle) log.

Definition timersOf (handle : nat) (w : World) : list (nat * Timer) :=
  filter (λ t, t.1 = handle) (timers w).

Definition ticks (events : list Event) : nat :=
  length (filter (λ e, e = Tick) events).

Definition isRetryCall (e : Effect) : bool :=
  match e with LoadingError_retry _ => true | _ => false end.

Definition retries (tr : list Effect) : nat :=
  length (filter (λ e, isRetryCall e = true) tr).

Definition isInitCall (e : Effect) : bool :=
  match e with init _ _ => true | _ => false end.

(** The tasks of a log that ran an initialisation entry point for a
    section of module [m]. *)
Definition initRounds (m : string) (log : list Task) : list Task :=
  filter (λ t, match label t with
               | SettleTask _ sd =>
                   bool_decide (module sd = m) && existsb isInitCall (effects t)
               | _ => false
               end = true) log.

(** Initialisation rounds still open to module [m]. *)
Definition uninitialised (m : string) (w : World) : nat :=
  if isLoaded w m then 0 else 1.

(** Retries the error display will still accept. *)
Definition budget (w : World) : nat := if isRetry w then 0 else 1.

(** Every timer handle in use was handed out earlier. *)
Definition wf (w : World) : Prop :=
  Forall (λ t, t.1 < nextId w) (timers w).

(** Modelled from the spec: the store's reducer is not part of the
    source. The handler is said to "mark application-wide loading state"
    and activation to "clear the loading flag", both with a [SECTION_SET]
    action: the flag of a store is the [isLoading] of the last
    [SECTION_SET] dispatched to it. *)
Fixpoint loadingFlag (s : nat) (flag : option bool) (tr : list Effect)
    : option bool :=
  match tr with
  | [] => flag
  | dispatch c (SECTION_SET b) :: rest =>
      if decide (store c = s) then loadingFlag s (Some b) rest
      else loadingFlag s flag rest
  | _ :: rest => loadingFlag s flag rest
  end.

(** *** Counting calls *)

Definition isNextCall (e : Effect) : bool :=
  match e with next _ => true | _ => false end.

Definition isPreloadCall (e : Effect) : bool :=
  match e with preload _ => true | _ => false end.

Definition isSetTimeoutCall (e : Effect) : bool :=
  match e with setTimeout _ _ => true | _ => false end.

Definition isClearTimeoutCall (e : Effect) : bool :=
  match e with clearTimeout _ => true | _ => false end.

Definition isStatDispatch (e : Effect) : bool :=
  match e with dispatch _ (bumpStat _ _) => true | _ => false end.

Definition isDispatch (e : Effect) : bool :=
  match e with dispatch _ _ => true | _ => false end.

Definition calls (p : Effect → bool) (tr : list Effect) : nat :=
  length (filter (λ e, p e = true) tr).

Definition isRouteMatch (e : Event) : bool :=
  match e with RouteMatch _ _ => true | _ => false end.

Definition isResolution (e : Event) : bool :=
  match e with PreloadSettles _ (Resolved _) => true | _ => false end.

Definition routeMatches (events : list Event) : nat :=
  length (filter (λ e, isRouteMatch e = true) events).

(** The context an effect is addressed to, if any. *)
Definition contextOf (e : Effect) : option Context :=
  match e with
  | setSection _ c | dispatch c _ | next c | LoadingError_show c _ => Some c
  | _ => None
  end.

(** Every pending load got its handle earlier. *)
Definition pendingFresh (w : World) : Prop :=
  ∀ h, is_Some (pending w !! h) → h < nextId w.

(** A timer belongs to the pending load of the same handle, and was
    armed with the context and the section name of that load. *)
Definition timerOwned (w : World) (t : nat * Timer) : Prop :=
  t.1 < nextId w
  ∧ ∃ sd ctx, pending w !! t.1 = Some (sd, ctx)
              ∧ timerContext t.2 = ctx ∧ timerSection t.2 = name sd.

Definition timersOwned (w : World) : Prop :=
  Forall (timerOwned w) (timers w).

(** Some load started from a context of store [s] is pending. *)
Definition loadingFor (s : nat) (w : World) : Prop :=
  ∃ h sd ctx, pending w !! h = Some (sd, ctx) ∧ store ctx = s.

(** *** The paths through one step

    Each constructor is one path through the handler, through the chain
    of a settled promise, or the passing of time, with the world and the
    task it leaves. *)

Section Paths.

Variable env_id : string.
Variable NODE_ENV : string.

Definition task (l : TaskLabel) (es : list Effect) : Task :=
  {| label := l; effects := es |}.

Inductive Path (w : World) : Event → World * list Task → Prop :=
| path_skip sd ctx :
    envExcluded env_id sd = true →
    Path w (RouteMatch sd ctx) (w, [task (HandlerTask sd ctx) [next ctx]])
| path_activate sd ctx :
    envExcluded env_id sd = false → isLoaded w (module sd) = true →
    Path w (RouteMatch sd ctx)
      (w, [task (HandlerTask sd ctx) (activateSection sd ctx)])
| path_load sd ctx :
    envExcluded env_id sd = false → isLoaded w (module sd) = false →
    Path w (RouteMatch sd ctx)
      (startLoad sd ctx w,
       [task (HandlerTask sd ctx)
          [ dispatch ctx (SECTION_SET true);
            setTimeout (nextId w) 400;
            preload (name sd) ]])
| path_settled h outcome :
    pending w !! h = None →
    Path w (PreloadSettles h outcome) (w, [])
| path_initialise h sd ctx mods :
    pending w !! h = Some (sd, ctx) → isLoaded w (module sd) = false →
    Path w (PreloadSettles h (Resolved mods))
      (cancelTimer h (markLoaded (module sd) (dropPending h w)),
       [task (SettleTask h sd)
          ((map (λ m, init m clientRouter) mods ++ activateSection sd ctx)
           ++ [clearTimeout h])])
| path_initialised h sd ctx mods :
    pending w !! h = Some (sd, ctx) → isLoaded w (module sd) = true →
    Path w (PreloadSettles h (Resolved mods))
      (cancelTimer h (dropPending h w),
       [task (SettleTask h sd)
          (activateSection sd ctx ++ [clearTimeout h])])
| path_retry h sd ctx :
    pending w !! h = Some (sd, ctx) →
    isRetry w = false → NODE_ENV ≠ "development"%string →
    Path w (PreloadSettles h Rejected)
      (cancelTimer h (LoadingError_markRetry (dropPending h w)),
       [task (SettleTask h sd)
          [ LoadingError_retry (name sd); clearTimeout h ]])
| path_show h sd ctx :
    pending w !! h = Some (sd, ctx) →
    isRetry w = true ∨ NODE_ENV = "development"%string →
    Path w (PreloadSettles h Rejected)
      (cancelTimer h (dropPending h w),
       [task (SettleTask h sd)
          [ dispatch ctx (SECTION_SET false);
            LoadingError_show ctx (name sd);
            clearTimeout h ]])
| path_tick :
    Path w Tick (tick w).

(** A route match for a section this environment is excluded from;
    other events count as such. *)
Definition excludedMatch (e : Event) : bool :=
  match e with
  | RouteMatch sd _ => envExcluded env_id sd
  | _ => true
  end.

End Paths.

(** One [next] per route match, for the context of the match. *)
Definition passedOn (events : list Event) : list Effect :=
  omap (λ e, match e with
             | RouteMatch _ ctx => Some (next ctx)
             | _ => None
             end) events.

(** *** When a call of the [then] handler throws

    The [.catch] hangs off the [.then], so it also receives what the
    [then] handler throws: an entry point [mod.default] that throws ends
    the [forEach] before [_loadedSections] is written, and a call of
    [activateSection] that throws comes after the write. Either way the
    [catch] handler runs next, and the last [then] after it. A call that
    throws has been made, so it is part of the effects. Throws inside
    the route handler itself leave it and are not the chain's. *)

(** How the [then] handler ends: it returns, or its call of index [n]
    (counting the entry points it runs, then the four calls of
    [activateSection]) throws. *)
Inductive Completion :=
| Returns
| Throws (n : nat).

#[global] Instance Completion_eq_dec : EqDecision Completion.
Proof. solve_decision. Defined.

(** A route match, settlement or tick in which every call returns, or
    the resolution of load [handle] with [requiredModules] in which the
    call of index [n] of the [then] handler throws. *)
Inductive EventT :=
| returning (e : Event)
| throwing (handle : nat) (requiredModules : list LoadedModule) (n : nat).

#[global] Instance EventT_eq_dec : EqDecision EventT.
Proof. solve_decision. Defined.

(** The entry points all return: the handler returns, or what throws is
    a call of [activateSection]. *)
Definition entryPointsReturn (c : Completion)
    (requiredModules : list LoadedModule) : bool :=
  match c with
  | Returns => true
  | Throws n => bool_decide (length requiredModules ≤ n)
  end.

Definition isSetSectionCall (e : Effect) : bool :=
  match e with setSection _ _ => true | _ => false end.

(** The tasks of a log that ran entry points for a section of module
    [m] and went on to activate it. *)
Definition completedRounds (m : string) (log : list Task) : list Task :=
  filter (λ t, match label t with
               | SettleTask _ sd =>
                   bool_decide (module sd = m)
                   && existsb isInitCall (effects t)
                   && existsb isSetSectionCall (effects t)
               | _ => false
               end = true) log.

Section Throwing.

Variable env_id : string.
Variable NODE_ENV : string.

(** The calls of the [then] handler, in order, when none throws. *)
Definition thenCalls (w : World) (sectionDefinition : SectionDefinition)
    (context : Context) (requiredModules : list LoadedModule)
    : list Effect :=
  (if isLoaded w (module sectionDefinition) then []
   else map (λ m, init m clientRouter) requiredModules)
  ++ activateSection sectionDefinition context.

(** [.then( requiredModules => ... ).catch( error => ... )] *)
Definition thenCatch (w : World) (sectionDefinition : SectionDefinition)
    (context : Context) (requiredModules : list LoadedModule)
    (c : Completion) : World * list Effect :=
  let calls := thenCalls w sectionDefinition context requiredModules in
  match c with
  | Throws n =>
      if bool_decide (n < length calls) then
        let w1 :=
          if negb (isLoaded w (module sectionDefinition))
             && bool_decide (length requiredModules ≤ n)
          then markLoaded (module sectionDefinition) w
          else w in
        let r := onRejected NODE_ENV w1 sectionDefinition context in
        (r.1, take (S n) calls ++ r.2)
      else onResolved w sectionDefinition context requiredModules
  | Returns => onResolved w sectionDefinition context requiredModules
  end.

(** The chain of one [preload] promise, as [settle], with the way the
    [then] handler ends. *)
Definition settleT (w : World) (handle : nat) (outcome : Settlement)
    (c : Completion) : World * list Effect :=
  match pending w !! handle with
  | None => (w, [])
  | Some (sectionDefinition, context) =>
    let w1 := dropPending handle w in
    let r := match outcome with
             | Resolved requiredModules =>
                 thenCatch w1 sectionDefinition context requiredModules c
             | Rejected => onRejected NODE_ENV w1 sectionDefinition context
             end in
    (cancelTimer handle r.1, r.2 ++ [clearTimeout handle])
  end.

Definition stepT (w : World) (e : EventT) : World * list Task :=
  match e with
  | returning e => step env_id NODE_ENV w e
  | throwing handle requiredModules n =>
      match pending w !! handle with
      | None => (w, [])
      | Some (sectionDefinition, _) =>
          let r := settleT w handle (Resolved requiredModules) (Throws n) in
          (r.1, [ task (SettleTask handle sectionDefinition) r.2 ])
      end
  end.

Fixpoint runT (w : World) (events : list EventT) : World * list Task :=
  match events with
  | [] => (w, [])
  | e :: rest =>
      let r := stepT w e in
      let r' := runT r.1 rest in
      (r'.1, r.2 ++ r'.2)
  end.

End Throwing.

(** *** Sample sections *)

Definition themes : SectionDefinition :=
  {| name := "themes"; module := "my-sites/themes";
     paths := ["/themes"; "/design"]%string; envId := None |}.

Definition devdocs : SectionDefinition :=
  {| name := "devdocs"; module := "devdocs";
     paths := ["/devdocs"]%string;
     envId := Some ["development"; "wpcalypso"]%string |}.

Definition themesContext : Context := {| path := "/themes"; store := 0 |}.

(** A second section served by the module of [themes]. *)
Definition themeShowcase : SectionDefinition :=
  {| name := "theme-showcase"; module := "my-sites/themes";
     paths := ["/theme"]%string; envId := None |}.

Definition themesModules : list LoadedModule :=
  [ {| moduleDefault := "my-sites/themes" |} ].

(** A section whose chunk holds two modules. *)
Definition uploadModule : LoadedModule :=
  {| moduleDefault := "my-sites/themes/upload" |}.

Definition sheetModule : LoadedModule :=
  {| moduleDefault := "my-sites/themes/sheet" |}.

Definition twoModules : list LoadedModule := [ uploadModule; sheetModule ].

(** The world right after a first match of [/themes], and a world in
    which the themes section has been initialised. *)
Definition themesLoading : World := startLoad themes themesContext initial.

Definition themesLoaded : World := markLoaded "my-sites/themes" initial.

End Middleware.

(** ** The purchase selectors

    [state/purchases/selectors] and [lib/purchases/assembler] are not
    part of the source; only the selectors' test-suite is. The
    definitions of this module follow the spec and are checked against
    every expectation of that test-suite further down. *)

Module Purchases.

(** JavaScript numbers, which are doubles: [Int z] is the integer [z]
    (both zeros are [Int 0]), [Frac m e] the number [m / 2 ^ e] that is
    not an integer ([m] odd), [Infinite] an infinity. Such a value is a
    JavaScript number when a double holds it: at most 53 significant
    bits, within the exponent range. Strings are byte strings: the
    UTF-8 encoding of the JavaScript string. *)
Inductive Number :=
| NaN
| Int (z : Z)
| Frac (m : Z) (e : positive)
| Infinite (negative : bool).

Inductive Value :=
| undefined
| null
| Bool (b : bool)
| Num (n : Number)
| Str (s : string).

#[global] Instance Number_eq_dec : EqDecision Number.
Proof. solve_decision. Defined.
#[global] Instance Value_eq_dec : EqDecision Value.
Proof. solve_decision. Defined.

(** A raw record as the server sends it: an object whose properties may
    be missing, and whose ids come as numbers or as strings. *)
Abbreviation RawPurchase := (gmap string Value).

(** [raw.key] *)
Definition get (raw : RawPurchase) (key : string) : Value :=
  default undefined (raw !! key).

(** *** [Number( s )] on a string

    The StringNumericLiteral grammar: white space around an optionally
    signed decimal literal (digits with an optional fraction and an
    optional exponent, or [Infinity]) or around an unsigned binary,
    octal or hexadecimal integer literal; white space alone is 0, and
    whatever else is [NaN]. The mathematical value is rounded to the
    nearest double, ties to even. *)

Definition hexDigit (a : ascii) : option Z :=
  let n := Z.of_nat (nat_of_ascii a) in
  if bool_decide (48 ≤ n ≤ 57)%Z then Some (n - 48)%Z
  else if bool_decide (97 ≤ n ≤ 102)%Z then Some (n - 87)%Z
  else if bool_decide (65 ≤ n ≤ 70)%Z then Some (n - 55)%Z
  else None.

Definition digitIn (radix : Z) (a : ascii) : option Z :=
  match hexDigit a with
  | Some d => if bool_decide (d < radix)%Z then Some d else None
  | None => None
  end.

Fixpoint digitRun (radix acc count : Z) (s : string) : Z * Z * string :=
  match s with
  | String a rest =>
      match digitIn radix a with
      | Some d => digitRun radix (radix * acc + d) (count + 1) rest
      | None => (acc, count, s)
      end
  | EmptyString => (acc, count, s)
  end.

(** White space and line terminators: the ASCII ones, U+00A0, and the
    three-byte U+1680, U+2000 to U+200A, U+2028, U+2029, U+202F, U+205F,
    U+3000 and U+FEFF. *)
Definition code (a : ascii) : Z := Z.of_nat (nat_of_ascii a).

Definition space1 (a : ascii) : bool :=
  bool_decide (code a ∈ [9; 10; 11; 12; 13; 32]%Z).

Definition space2 (a b : ascii) : bool :=
  bool_decide ((code a, code b) = (194, 160)%Z).

Definition space3 (a b c : ascii) : bool :=
  bool_decide
    ((code a, code b) = (226, 128)%Z
       ∧ (128 ≤ code c ≤ 138 ∨ code c ∈ [168; 169; 175])%Z
     ∨ (code a, code b, code c)
         ∈ [(225, 154, 128); (226, 129, 159); (227, 128, 128);
            (239, 187, 191)]%Z).

Fixpoint skipWhiteSpace (s : string) : string :=
  match s with
  | String a rest =>
      if space1 a then skipWhiteSpace rest
      else match rest with
           | String b rest2 =>
               if space2 a b then skipWhiteSpace rest2
               else match rest2 with
                    | String c rest3 =>
                        if space3 a b c then skipWhiteSpace rest3 else s
                    | EmptyString => s
                    end
           | EmptyString => s
           end
  | EmptyString => s
  end.

(** [2 ^ k ≤ n / d] *)
Definition atLeast (n d k : Z) : bool :=
  if (0 <=? k)%Z then (d * 2 ^ k <=? n)%Z else (d <=? n * 2 ^ (- k))%Z.

(** The number [m * 2 ^ q], with its sign. *)
Definition dyadic (negative : bool) (m q : Z) : Number :=
  let sign z := if negative then (- z)%Z else z in
  if (0 <=? q)%Z then Int (sign (m * 2 ^ q))%Z
  else
    let g := Z.gcd m (2 ^ (- q)) in
    let den := (2 ^ (- q) / g)%Z in
    if (den =? 1)%Z then Int (sign (m / g))%Z
    else Frac (sign (m / g))%Z (Z.to_pos (Z.log2 den)).

(** The double nearest to [n / d], for [0 ≤ n] and [0 < d]: 53 bits
    above the binary exponent [e] of the quotient, or the multiples of
    [2 ^ -1074] below the normal range; past the largest double it is an
    infinity. *)
Definition roundToDouble (negative : bool) (n d : Z) : Number :=
  if (n =? 0)%Z then Int 0
  else
    let e0 := (Z.log2 n - Z.log2 d)%Z in
    let e := if atLeast n d e0 then e0 else (e0 - 1)%Z in
    let q := Z.max (e - 52) (- 1074) in
    let num := if (0 <=? q)%Z then n else (n * 2 ^ (- q))%Z in
    let den := if (0 <=? q)%Z then (d * 2 ^ q)%Z else d in
    let m0 := (num / den)%Z in
    let r := (num mod den)%Z in
    let m := if (den <? 2 * r)%Z || ((2 * r =? den)%Z && Z.odd m0)
             then (m0 + 1)%Z else m0 in
    if (971 <? q)%Z || ((q =? 971)%Z && (2 ^ 53 <=? m)%Z)
    then Infinite negative
    else dyadic negative m q.

(** [mantissa * 10 ^ exponent] as a double; far outside the range of
    the doubles the powers of ten are not computed. *)
Definition decimalValue (negative : bool) (mantissa exponent : Z) : Number :=
  if (mantissa =? 0)%Z then Int 0
  else if (310 <=? exponent)%Z then Infinite negative
  else if (exponent + Z.log2 mantissa + 1 <=? - 324)%Z then Int 0
  else if (0 <=? exponent)%Z
       then roundToDouble negative (mantissa * 10 ^ exponent) 1
       else roundToDouble negative mantissa (10 ^ (- exponent)).

Definition isPrefix (p s : string) : bool :=
  bool_decide (String.substring 0 (String.length p) s = p).

Definition dropChars (n : nat) (s : string) : string :=
  String.substring n (String.length s - n) s.

(** What follows [e] or [E]. *)
Definition exponentPart (s : string) : option (Z * string) :=
  let '(negative, s1) :=
    match s with
    | String a rest =>
        if bool_decide (a = "-"%char) then (true, rest)
        else if bool_decide (a = "+"%char) then (false, rest)
        else (false, s)
    | EmptyString => (false, s)
    end in
  let '(v, n, rest) := digitRun 10 0 0 s1 in
  if (n =? 0)%Z then None
  else Some (if negative : bool then (- v)%Z else v, rest).

(** [Infinity], or digits with an optional point and fraction, or a
    point and a fraction, each with an optional exponent. *)
Definition unsignedDecimal (negative : bool) (s : string)
    : option (Number * string) :=
  if isPrefix "Infinity" s then Some (Infinite negative, dropChars 8 s)
  else
    let '(ip, ni, s1) := digitRun 10 0 0 s in
    let '(mant, nf, s2) :=
      match s1 with
      | String a rest =>
          if bool_decide (a = "."%char) then digitRun 10 ip 0 rest
          else (ip, 0%Z, s1)
      | EmptyString => (ip, 0%Z, s1)
      end in
    if (ni + nf =? 0)%Z then None
    else
      match s2 with
      | String a rest =>
          if bool_decide (a = "e"%char ∨ a = "E"%char) then
            match exponentPart rest with
            | Some (ex, s3) => Some (decimalValue negative mant (ex - nf), s3)
            | None => None
            end
          else Some (decimalValue negative mant (- nf), s2)
      | EmptyString => Some (decimalValue negative mant (- nf), s2)
      end.

Definition radixOf (a : ascii) : option Z :=
  if bool_decide (a = "x"%char ∨ a = "X"%char) then Some 16%Z
  else if bool_decide (a = "o"%char ∨ a = "O"%char) then Some 8%Z
  else if bool_decide (a = "b"%char ∨ a = "B"%char) then Some 2%Z
  else None.

(** The digits after [0x], [0o] or [0b]. *)
Definition nonDecimal (radix : Z) (s : string) : option (Number * string) :=
  let '(v, n, rest) := digitRun radix 0 0 s in
  if (n =? 0)%Z then None else Some (roundToDouble false v 1, rest).

Definition numericLiteral (s : string) : option (Number * string) :=
  match s with
  | String a rest =>
      match (if bool_decide (a = "0"%char) then
               match rest with
               | String b rest2 =>
                   match radixOf b with
                   | Some radix => Some (nonDecimal radix rest2)
                   | None => None
                   end
               | EmptyString => None
               end
             else None) with
      | Some r => r
      | None =>
          if bool_decide (a = "-"%char) then unsignedDecimal true rest
          else if bool_decide (a = "+"%char) then unsignedDecimal false rest
          else unsignedDecimal false s
      end
  | EmptyString => None
  end.

(** [Number( s )] *)
Definition StringToNumber (s : string) : Number :=
  match skipWhiteSpace s with
  | EmptyString => Int 0
  | t =>
      match numericLiteral t with
      | Some (v, rest) =>
          match skipWhiteSpace rest with
          | EmptyString => v
          | _ => NaN
          end
      | None => NaN
      end
  end.

(** [Number( v )] *)
Definition ToNumber (v : Value) : Number :=
  match v with
  | undefined => NaN
  | null => Int 0
  | Bool b => Int (if b then 1 else 0)
  | Num n => n
  | Str s => StringToNumber s
  end.

(** [Boolean( v )] *)
Definition ToBoolean (v : Value) : bool :=
  match v with
  | undefined | null => false
  | Bool b => b
  | Num NaN => false
  | Num (Int z) => negb (bool_decide (z = 0%Z))
  | Num _ => true
  | Str s => negb (bool_decide (s = ""%string))
  end.

(** *** [String( n )] on a number

    The fewest decimal digits that read back as the number, laid out as
    an integer, a decimal fraction or in exponent notation. *)

(** [n / d * 10 ^ p] as a quotient. *)
Definition scaled (n d p : Z) : Z * Z :=
  if (0 <=? p)%Z then (n * 10 ^ p, d)%Z else (n, d * 10 ^ (- p))%Z.

(** The [N] with [10 ^ (N - 1) ≤ n / d < 10 ^ N]. *)
Definition decimalExponent (n d : Z) : Z :=
  let a := Z.of_nat (String.length (pretty n)) in
  let b := Z.of_nat (String.length (pretty d)) in
  let '(num, den) := scaled n d (- (a - b)) in
  if (den <=? num)%Z then (a - b + 1)%Z else (a - b)%Z.

(** The least [k], from the one given, for which a [k]-digit [s] has
    [s * 10 ^ (N - k)] read back as [x], with the [s] nearest to [n / d]
    (the even one of two); it gives [N], [k] and [s]. *)
Fixpoint shortest (fuel : nat) (x : Number) (n d N k : Z) : Z * Z * Z :=
  let '(num, den) := scaled n d (k - N) in
  let lo := (num / den)%Z in
  let r := (num mod den)%Z in
  let ok s :=
    let '(cn, cd) := scaled s 1 (N - k) in
    bool_decide (roundToDouble false cn cd = x) in
  let pick s := if (s =? 10 ^ k)%Z then (N + 1, 1, 1)%Z else (N, k, s) in
  if (r =? 0)%Z then (N, k, lo)
  else
    let hi := (lo + 1)%Z in
    let nearLo := (2 * r <? den)%Z || ((2 * r =? den)%Z && Z.even lo) in
    match ok lo, ok hi with
    | true, true => pick (if nearLo then lo else hi)
    | true, false => pick lo
    | false, true => pick hi
    | false, false =>
        match fuel with
        | S fuel' => shortest fuel' x n d N (k + 1)
        | O => (N, k, lo)
        end
    end.

Definition zeros (n : Z) : string :=
  String.string_of_list_ascii (replicate (Z.to_nat n) "0"%char).

Definition layout (N k s : Z) : string :=
  let ds := pretty s in
  if ((k <=? N) && (N <=? 21))%Z then ds +:+ zeros (N - k)
  else if ((0 <? N) && (N <=? 21))%Z then
    String.substring 0 (Z.to_nat N) ds +:+ "." +:+ dropChars (Z.to_nat N) ds
  else if ((- 6 <? N) && (N <=? 0))%Z then "0." +:+ zeros (- N) +:+ ds
  else
    let e := (N - 1)%Z in
    let sign := if (0 <=? e)%Z then "+" else "-" in
    let mant := if (k =? 1)%Z then ds
                else String.substring 0 1 ds +:+ "." +:+ dropChars 1 ds in
    mant +:+ "e" +:+ sign +:+ pretty (Z.abs e).

Definition positiveToString (x : Number) (n d : Z) : string :=
  let fuel := (20 + Z.to_nat (Z.log2 n) + Z.to_nat (Z.log2 d))%nat in
  let '(N, k, s) := shortest fuel x n d (decimalExponent n d) 1 in
  layout N k s.

(** Integers below [2 ^ 53] are their own digits. *)
Definition NumberToString (x : Number) : string :=
  match x with
  | NaN => "NaN"
  | Infinite negative => if negative then "-Infinity" else "Infinity"
  | Int z =>
      if (Z.abs z <? 2 ^ 53)%Z then pretty z
      else (if (z <? 0)%Z then "-" else "")
           +:+ positiveToString (Int (Z.abs z)) (Z.abs z) 1
  | Frac m e =>
      (if (m <? 0)%Z then "-" else "")
      +:+ positiveToString (Frac (Z.abs m) e) (Z.abs m) (2 ^ Zpos e)
  end.

(** [`${ v }`] *)
Definition ToString (v : Value) : string :=
  match v with
  | undefined => "undefined"
  | null => "null"
  | Bool b => if b then "true" else "false"
  | Num n => NumberToString n
  | Str s => s
  end.

(** [a === b]: [NaN] is not equal to itself. *)
Definition strictEquals (a b : Value) : bool :=
  match a, b with
  | Num NaN, _ | _, Num NaN => false
  | _, _ => bool_decide (a = b)
  end.

Record Payment := {
  countryCode : Value;
  countryName : Value;
  name : Value;
  type : Value
}.

(** The view model of a purchase, with the fields the
    [getByPurchaseId] test spells out. A moment is [None] for [null] and
    [Some date] for the moment of [date]. *)
Record Purchase := {
  id : Number;
  productName : Value;
  siteId : Number;
  active : bool;
  amount : Number;
  attachedToPurchaseId : Number;
  canExplicitRenew : bool;
  canDisableAutoRenew : bool;
  currencyCode : Value;
  currencySymbol : Value;
  domain : Value;
  error : Value;
  expiryDate : Value;
  expiryMoment : option Value;
  expiryStatus : string;
  hasPrivacyProtection : bool;
  includedDomain : Value;
  isCancelable : bool;
  isDomainRegistration : bool;
  isRefundable : bool;
  isRenewable : bool;
  isRenewal : bool;
  meta : Value;
  payment : Payment;
  priceText : string;
  productId : Number;
  productSlug : Value;
  pendingTransfer : bool;
  refundPeriodInDays : Value;
  refundAmount : Number;
  refundText : string;
  renewDate : Value;
  renewMoment : option Value;
  siteName : Value;
  subscribedDate : Value;
  subscriptionStatus : Value;
  tagLine : Value;
  userId : Number
}.

#[global] Instance Payment_eq_dec : EqDecision Payment.
Proof. solve_decision. Defined.
#[global] Instance Purchase_eq_dec : EqDecision Purchase.
Proof. solve_decision. Defined.

Definition momentOf (date : Value) : option Value :=
  if ToBoolean date then Some date else None.

Definition statusText (v : Value) : string :=
  match v with
  | Str s => s
  | _ => ""
  end.

(** Modelled from the spec: the assembler of [lib/purchases/assembler]
    is missing. It is a "pure transformation of raw server records into
    a normalized view model" that "always produces a fully-shaped
    object, substituting not-a-number for missing numeric fields and
    undefined for missing optional fields", with "boolean flags
    defaulting false". The tests give the raw keys [ID],
    [product_name], [blog_id], [user_id], [product_slug], [meta],
    [included_domain] and [is_domain_registration] and the whole result
    for a record that has the first three only; the other raw keys are
    taken to be the snake_case names of their fields. *)
Definition createPurchaseObject (purchase : RawPurchase) : Purchase :=
  {| id := ToNumber (get purchase "ID");
     productName := get purchase "product_name";
     siteId := ToNumber (get purchase "blog_id");
     active := ToBoolean (get purchase "active");
     amount := ToNumber (get purchase "amount");
     attachedToPurchaseId :=
       ToNumber (get purchase "attached_to_purchase_id");
     canExplicitRenew := ToBoolean (get purchase "can_explicit_renew");
     canDisableAutoRenew :=
       ToBoolean (get purchase "can_disable_auto_renew");
     currencyCode := get purchase "currency_code";
     currencySymbol := get purchase "currency_symbol";
     domain := get purchase "domain";
     error := null;
     expiryDate := get purchase "expiry_date";
     expiryMoment := momentOf (get purchase "expiry_date");
     expiryStatus := statusText (get purchase "expiry_status");
     hasPrivacyProtection :=
       ToBoolean (get purchase "has_private_registration");
     includedDomain := get purchase "included_domain";
     isCancelable := ToBoolean (get purchase "is_cancelable");
     isDomainRegistration :=
       ToBoolean (get purchase "is_domain_registration");
     isRefundable := ToBoolean (get purchase "is_refundable");
     isRenewable := ToBoolean (get purchase "is_renewable");
     isRenewal := ToBoolean (get purchase "is_renewal");
     meta := get purchase "meta";
     payment :=
       {| countryCode := get purchase "payment_country_code";
          countryName := get purchase "payment_country_name";
          name := get purchase "payment_name";
          type := get purchase "payment_type" |};
     priceText :=
       String.append (ToString (get purchase "currency_symbol"))
                     (ToString (get purchase "amount"));
     productId := ToNumber (get purchase "product_id");
     productSlug := get purchase "product_slug";
     pendingTransfer := ToBoolean (get purchase "pending_transfer");
     refundPeriodInDays := get purchase "refund_period_in_days";
     refundAmount := ToNumber (get purchase "refund_amount");
     refundText :=
       String.append (ToString (get purchase "currency_symbol"))
                     (ToString (get purchase "refund_amount"));
     renewDate := get purchase "renew_date";
     renewMoment := momentOf (get purchase "renew_date");
     siteName := get purchase "blogname";
     subscribedDate := get purchase "subscribed_date";
     subscriptionStatus := get purchase "subscription_status";
     tagLine := get purchase "tag_line";
     userId := ToNumber (get purchase "user_id") |}.

(** Modelled from the spec: [createPurchasesArray] of the missing
    assembler, "one view model per raw record". *)
Definition createPurchasesArray (dataTransferObject : list RawPurchase)
    : list Purchase :=
  map createPurchaseObject dataTransferObject.

(** [state.purchases], as the tests build it. *)
Record PurchasesState := {
  data : list RawPurchase;
  error_ : Value;
  isFetchingSitePurchases_ : bool;
  isFetchingUserPurchases_ : bool;
  hasLoadedSitePurchasesFromServer : bool;
  hasLoadedUserPurchasesFromServer : bool
}.

Record State := { purchases : PurchasesState }.

(** Modelled from the spec: [getPurchases] of the missing selectors,
    which "maps raw records through the assembler". *)
Definition getPurchases (state : State) : list Purchase :=
  createPurchasesArray (data (purchases state)).

(** Modelled from the spec: [getByPurchaseId] "finds first match by
    numeric id"; [None] is the [undefined] of a search that finds
    nothing. *)
Definition getByPurchaseId (state : State) (purchaseId : Value)
    : option Purchase :=
  head (filter (λ purchase, strictEquals (Num (id purchase)) purchaseId = true)
               (getPurchases state)).

(** Modelled from the spec: [getSitePurchases] "filters by site
    identifier equality after normalization". *)
Definition getSitePurchases (state : State) (siteId_ : Value)
    : list Purchase :=
  filter (λ purchase, strictEquals (Num (siteId purchase)) siteId_ = true)
         (getPurchases state).

(** Modelled from the spec: the fetching-status getters "pass through
    the corresponding raw boolean flags unchanged". *)
Definition isFetchingUserPurchases (state : State) : bool :=
  isFetchingUserPurchases_ (purchases state).

Definition isFetchingSitePurchases (state : State) : bool :=
  isFetchingSitePurchases_ (purchases state).

(** The purchases owned by a user: "owning-user-id equality". *)
Definition purchasesOfUser (state : State) (userId_ : Value)
    : list Purchase :=
  filter (λ purchase, strictEquals (Num (userId purchase)) userId_ = true)
         (getPurchases state).

Definition isPremiumTheme (purchase : Purchase) : bool :=
  strictEquals (productSlug purchase) (Str "premium_theme").

(** Modelled from the spec: [isUserPaid] "requires the loaded from
    server flag to be true; when not loaded, reports the no/false
    answer". The tests fix the flag to the user-scoped one: the
    site-scoped flag is false in the test that expects true. *)
Definition isUserPaid (state : State) (userId_ : Value) : bool :=
  hasLoadedUserPurchasesFromServer (purchases state)
  && bool_decide (0 < length (purchasesOfUser state userId_)).

(** Modelled from the spec: [hasCancelableUserPurchases], gated like
    [isUserPaid]; by the test titles a premium theme is not
    cancelable. *)
Definition hasCancelableUserPurchases (state : State) (userId_ : Value)
    : bool :=
  hasLoadedUserPurchasesFromServer (purchases state)
  && bool_decide
       (0 < length (filter (λ purchase, isPremiumTheme purchase = false)
                           (purchasesOfUser state userId_))).

(** What a selector written [flag && array] returns. *)
Inductive OrFalse (A : Type) :=
| IsFalse
| Is (a : A).
Arguments IsFalse {A}.
Arguments Is {A} a.

(** Modelled from the spec: [getUserPurchasedPremiumThemes] "filters by
    product-slug equality to the theme marker and by owning-user-id
    equality"; the test expects it [toBe( false )] when the data is not
    ready and [toEqual( [] )] when it is ready and empty. *)
Definition getUserPurchasedPremiumThemes (state : State) (userId_ : Value)
    : OrFalse (list Purchase) :=
  if hasLoadedUserPurchasesFromServer (purchases state) then
    Is (filter (λ purchase, isPremiumTheme purchase = true)
               (purchasesOfUser state userId_))
  else IsFalse.

(** Modelled from the spec: [getIncludedDomainPurchase] "finds the
    domain-registration purchase on the same site whose identifying
    token matches" the bundled domain of the given purchase. *)
Definition getIncludedDomainPurchase (state : State)
    (subscriptionPurchase : Purchase) : option Purchase :=
  head (filter
          (λ purchase,
             isDomainRegistration purchase
             && strictEquals (meta purchase)
                  (includedDomain subscriptionPurchase) = true)
          (getSitePurchases state (Num (siteId subscriptionPurchase)))).

(** *** Field tables of the view model *)

Definition numericFields : list (string * (Purchase → Number)) :=
  [ ("ID", id); ("blog_id", siteId); ("amount", amount);
    ("attached_to_purchase_id", attachedToPurchaseId);
    ("product_id", productId); ("refund_amount", refundAmount);
    ("user_id", userId) ]%string.

Definition optionalFields : list (string * (Purchase → Value)) :=
  [ ("product_name", productName); ("currency_code", currencyCode);
    ("currency_symbol", currencySymbol); ("domain", domain);
    ("expiry_date", expiryDate); ("included_domain", includedDomain);
    ("meta", meta); ("product_slug", productSlug);
    ("refund_period_in_days", refundPeriodInDays);
    ("renew_date", renewDate); ("blogname", siteName);
    ("subscribed_date", subscribedDate);
    ("subscription_status", subscriptionStatus); ("tag_line", tagLine);
    ("payment_country_code", λ p, countryCode (payment p));
    ("payment_country_name", λ p, countryName (payment p));
    ("payment_name", λ p, name (payment p));
    ("payment_type", λ p, type (payment p)) ]%string.

Definition flagFields : list (string * (Purchase → bool)) :=
  [ ("active", active); ("can_explicit_renew", canExplicitRenew);
    ("can_disable_auto_renew", canDisableAutoRenew);
    ("has_private_registration", hasPrivacyProtection);
    ("is_cancelable", isCancelable);
    ("is_domain_registration", isDomainRegistration);
    ("is_refundable", isRefundable); ("is_renewable", isRenewable);
    ("is_renewal", isRenewal); ("pending_transfer", pendingTransfer) ]%string.

(** *** Arrays as objects

    A selector call hands back a reference to an array object; [alloc]
    is what [Array.prototype.map] does with its result. *)

Abbreviation Heap := (list (list Purchase)).

Definition alloc (heap : Heap) (array : list Purchase) : nat * Heap :=
  (length heap, heap ++ [array]).

(** Modelled from the spec: a call of [getPurchases] "returns a new
    sequence on every call" ("new array each call"). *)
Definition callGetPurchases (heap : Heap) (state : State) : nat * Heap :=
  alloc heap (getPurchases state).

(** *** The fixtures of the test-suite *)

Definition raw (properties : list (string * Value)) : RawPurchase :=
  list_to_map properties.

Definition stateOf (records : list RawPurchase) (site user : bool) : State :=
  {| purchases :=
       {| data := records; error_ := null;
          isFetchingSitePurchases_ := false;
          isFetchingUserPurchases_ := false;
          hasLoadedSitePurchasesFromServer := site;
          hasLoadedUserPurchasesFromServer := user |} |}.

Definition examplePurchases : list RawPurchase :=
  [ raw [ ("ID", Num (Int 1)); ("product_name", Str "domain registration");
          ("blog_id", Num (Int 1337)); ("user_id", Num (Int 123)) ];
    raw [ ("ID", Num (Int 2)); ("product_name", Str "premium plan");
          ("blog_id", Num (Int 1337)); ("user_id", Num (Int 123)) ];
    raw [ ("ID", Num (Int 3)); ("product_name", Str "premium theme");
          ("product_slug", Str "premium_theme");
          ("blog_id", Num (Int 1337)); ("user_id", Num (Int 123)) ] ]%string.

Definition domainRegistration : RawPurchase :=
  raw [ ("ID", Num (Int 1)); ("product_name", Str "domain registration");
        ("blog_id", Num (Int 1337)) ]%string.

Definition premiumPlan : RawPurchase :=
  raw [ ("ID", Num (Int 2)); ("product_name", Str "premium plan");
        ("blog_id", Num (Int 1337)) ]%string.

Definition twoPurchases : list RawPurchase :=
  [ domainRegistration; premiumPlan ].

Definition businessPlan : list RawPurchase :=
  [ raw [ ("ID", Num (Int 3)); ("product_name", Str "business plan");
          ("blog_id", Num (Int 3117)) ] ]%string.

Definition sitePurchases : list RawPurchase :=
  [ raw [ ("ID", Str "81414"); ("blog_id", Str "1234") ];
    raw [ ("ID", Str "82867"); ("blog_id", Str "1234") ];
    raw [ ("ID", Str "105103"); ("blog_id", Str "123") ] ]%string.

Definition domainPurchases : list RawPurchase :=
  [ raw [ ("ID", Str "81414"); ("meta", Str "dev.live");
          ("blog_id", Str "123"); ("is_domain_registration", Str "true");
          ("product_slug", Str "dotlive_domain") ];
    raw [ ("ID", Str "82867"); ("blog_id", Str "123");
          ("product_slug", Str "value_bundle");
          ("included_domain", Str "dev.live") ];
    raw [ ("ID", Str "105103"); ("blog_id", Str "123");
          ("meta", Str "wordpress.com");
          ("product_slug", Str "domain_map") ] ]%string.

End Purchases.

(** ** Properties of the section-loading middleware *)

Module MiddlewareFacts.
Import Middleware.

Section Facts.

Variable env_id : string.
Variable NODE_ENV : string.

Local Abbreviation pageHandler := (pageHandler env_id).
Local Abbreviation settle := (settle NODE_ENV).
Local Abbreviation step := (step env_id NODE_ENV).
Local Abbreviation run := (run env_id NODE_ENV).

Lemma isLoaded_markLoaded m k w :
  isLoaded (markLoaded m w) k = if decide (m = k) then true else isLoaded w k.
Proof.
  unfold isLoaded, markLoaded; simpl.
  rewrite lookup_insert. by case_decide.
Qed.

Lemma pageHandler_registry w sd ctx :
  _loadedSections (pageHandler w sd ctx).1 = _loadedSections w.
Proof.
  unfold pageHandler.
  destruct (envExcluded env_id sd); [done|].
  by destruct (isLoaded w (module sd)).
Qed.

Lemma settle_pending w h sd ctx outcome :
  pending w !! h = Some (sd, ctx) →
  settle w h outcome =
    let r := match outcome with
             | Resolved mods => onResolved (dropPending h w) sd ctx mods
             | Rejected => onRejected NODE_ENV (dropPending h w) sd ctx
             end in
    (cancelTimer h r.1, r.2 ++ [clearTimeout h]).
Proof. intros H. unfold settle. by rewrite H. Qed.

Lemma settle_keeps_loaded w h outcome k :
  isLoaded w k = true → isLoaded (settle w h outcome).1 k = true.
Proof.
  intros Hk. unfold settle.
  destruct (pending w !! h) as [[sd ctx]|]; [|done].
  destruct outcome as [mods|]; simpl.
  - unfold onResolved.
    destruct (negb (isLoaded (dropPending h w) (module sd))); simpl; [|done].
    change (isLoaded (markLoaded (module sd) w) k = true).
    rewrite isLoaded_markLoaded. by case_decide.
  - unfold onRejected.
    by destruct (negb (isRetry (dropPending h w)) && _).
Qed.

Lemma step_keeps_loaded w e k :
  isLoaded w k = true → isLoaded (step w e).1 k = true.
Proof.
  intros Hk. destruct e as [sd ctx|h outcome|]; simpl.
  - unfold isLoaded. by rewrite pageHandler_registry.
  - destruct (pending w !! h) as [[sd ctx]|]; [|done]. simpl.
    by apply settle_keeps_loaded.
  - done.
Qed.

Lemma run_keeps_loaded events : ∀ w k,
  isLoaded w k = true → isLoaded (run w events).1 k = true.
Proof.
  induction events as [|e rest IH]; intros w k Hk; [done|].
  simpl. apply IH. by apply step_keeps_loaded.
Qed.

Lemma run_cons e rest w :
  run w (e :: rest) =
    ((run (step w e).1 rest).1, (step w e).2 ++ (run (step w e).1 rest).2).
Proof. done. Qed.

Lemma run_app events1 events2 w :
  run w (events1 ++ events2) =
    ((run (run w events1).1 events2).1,
     (run w events1).2 ++ (run (run w events1).1 events2).2).
Proof.
  revert w. induction events1 as [|e rest IH]; intros w; simpl.
  - by destruct (run w events2).
  - rewrite IH. simpl. by rewrite app_assoc.
Qed.

(** *** Activation *)

(** C4: activation selects the section, dispatches [SECTION_SET] with
    [isLoading] false, dispatches the layout-focus advance and calls
    [next], in this order; this is what a route match for a loaded
    section does at once, and what a successful load does right after
    the initialisation (if any). *)
Theorem activation_order w sd ctx :
  activateSection sd ctx =
    [ setSection sd ctx;
      dispatch ctx (SECTION_SET false);
      dispatch ctx activateNextLayoutFocus;
      next ctx ]
  ∧ (envExcluded env_id sd = false → isLoaded w (module sd) = true →
     (pageHandler w sd ctx).2 = activateSection sd ctx)
  ∧ (∀ h mods, pending w !! h = Some (sd, ctx) →
     (settle w h (Resolved mods)).2 =
       (if isLoaded w (module sd) then []
        else map (λ m, init m clientRouter) mods)
       ++ activateSection sd ctx ++ [clearTimeout h]).
Proof.
  split; [done|]. split.
  - intros He Hl. unfold pageHandler. by rewrite He, Hl.
  - intros h mods Hp. rewrite (settle_pending _ _ _ _ _ Hp). simpl.
    unfold onResolved.
    change (isLoaded (dropPending h w) (module sd))
      with (isLoaded w (module sd)).
    destruct (isLoaded w (module sd)); simpl; [done|].
    by rewrite <- app_assoc.
Qed.

(** *** Environment restriction *)

(** C8: when the section lists allowed environment ids and the current
    one is not among them, the handler only calls [next]: the world is
    unchanged (no load is pending, nothing is marked) and nothing is
    dispatched, initialised or activated. *)
Theorem excluded_environment_skips w sd ctx ids :
  envId sd = Some ids → env_id ∉ ids →
  pageHandler w sd ctx = (w, [next ctx])
  ∧ step w (RouteMatch sd ctx) =
      (w, [ {| label := HandlerTask sd ctx; effects := [next ctx] |} ]).
Proof.
  intros Hids Hnot.
  assert (pageHandler w sd ctx = (w, [next ctx])) as H.
  { unfold pageHandler, envExcluded. rewrite Hids.
    by rewrite bool_decide_eq_true_2. }
  split; [done|]. simpl. by rewrite H.
Qed.

(** *** Initialisation and the registry *)

Lemma initRounds_app m log1 log2 :
  initRounds m (log1 ++ log2) = initRounds m log1 ++ initRounds m log2.
Proof. unfold initRounds. apply filter_app. Qed.

Lemma initRounds_callbacks m l : initRounds m (map timerCallback l) = [].
Proof.
  unfold initRounds. induction l as [|t l IH]; [done|].
  simpl. rewrite filter_cons. simpl. exact IH.
Qed.

Lemma no_init_in_activation sd ctx h :
  existsb isInitCall (activateSection sd ctx ++ [clearTimeout h]) = false.
Proof. done. Qed.

Lemma uninitialised_markLoaded m k w :
  uninitialised k (markLoaded m w)
  = if decide (m = k) then 0 else uninitialised k w.
Proof.
  unfold uninitialised. rewrite isLoaded_markLoaded. by case_decide.
Qed.

Lemma initRounds_single m t : length (initRounds m [t]) ≤ 1.
Proof. unfold initRounds. apply (length_filter _ [t]). Qed.

Lemma initRounds_none m h sd es :
  module sd ≠ m ∨ existsb isInitCall es = false →
  initRounds m [ {| label := SettleTask h sd; effects := es |} ] = [].
Proof.
  intros Hor. unfold initRounds. rewrite filter_cons, filter_nil.
  cbn [label effects]. rewrite decide_False; [done|].
  destruct Hor as [Hne| ->].
  - by rewrite bool_decide_eq_false_2.
  - by rewrite andb_false_r.
Qed.

Lemma no_init_in_rejection w sd ctx h :
  existsb isInitCall ((onRejected NODE_ENV w sd ctx).2 ++ [clearTimeout h])
  = false.
Proof.
  unfold onRejected. by destruct (negb (isRetry w) && _).
Qed.

Lemma step_initRounds m w e :
  length (initRounds m (step w e).2) + uninitialised m (step w e).1
  ≤ uninitialised m w.
Proof.
  destruct e as [sd ctx|h outcome|].
  - simpl. unfold uninitialised, isLoaded at 1.
    rewrite pageHandler_registry. fold (isLoaded w m). done.
  - simpl. destruct (pending w !! h) as [[sd ctx]|] eqn:Hp; simpl; [|lia].
    rewrite (settle_pending _ _ _ _ _ Hp). cbn zeta. cbn [fst snd].
    destruct outcome as [mods|].
    + unfold onResolved.
      change (isLoaded (dropPending h w) (module sd))
        with (isLoaded w (module sd)).
      destruct (isLoaded w (module sd)) eqn:Hl; cbn [negb fst snd].
      * rewrite initRounds_none by (right; apply no_init_in_activation).
        simpl. done.
      * change (uninitialised m
                 (cancelTimer h (markLoaded (module sd) (dropPending h w))))
          with (uninitialised m (markLoaded (module sd) w)).
        rewrite uninitialised_markLoaded.
        destruct (decide (module sd = m)) as [Heq|Hne].
        -- unfold uninitialised. rewrite <- Heq, Hl.
           pose proof (initRounds_single (module sd)
             {| label := SettleTask h sd;
                effects := (map (λ m0, init m0 clientRouter) mods
                            ++ activateSection sd ctx) ++ [clearTimeout h] |}).
           lia.
        -- rewrite initRounds_none by (by left). simpl. lia.
    + rewrite initRounds_none by (right; apply no_init_in_rejection).
      assert (uninitialised m
                (cancelTimer h (onRejected NODE_ENV (dropPending h w) sd ctx).1)
              = uninitialised m w) as ->; [|simpl; lia].
      unfold onRejected. by destruct (negb (isRetry (dropPending h w)) && _).
  - simpl. rewrite initRounds_callbacks. simpl. apply Nat.eq_le_incl.
    reflexivity.
Qed.

Lemma run_initRounds m events : ∀ w,
  length (initRounds m (run w events).2) + uninitialised m (run w events).1
  ≤ uninitialised m w.
Proof.
  induction events as [|e rest IH]; intros w; [simpl; lia|].
  rewrite run_cons. cbn [fst snd].
  rewrite initRounds_app, length_app.
  specialize (IH (step w e).1). pose proof (step_initRounds m w e). lia.
Qed.

(** *** Load failure *)

Lemma retries_app tr1 tr2 : retries (tr1 ++ tr2) = retries tr1 + retries tr2.
Proof. unfold retries. by rewrite filter_app, length_app. Qed.

Lemma trace_app log1 log2 : trace (log1 ++ log2) = trace log1 ++ trace log2.
Proof. unfold trace. by rewrite map_app, concat_app. Qed.

Lemma trace_timerCallbacks l : retries (trace (map timerCallback l)) = 0.
Proof. induction l as [|t l IH]; [done|]. exact IH. Qed.

Lemma settle_budget w h outcome :
  retries (settle w h outcome).2 + budget (settle w h outcome).1 ≤ budget w.
Proof.
  unfold settle.
  destruct (pending w !! h) as [[sd ctx]|]; simpl; [|lia].
  destruct outcome as [mods|]; simpl.
  - unfold onResolved.
    destruct (negb (isLoaded (dropPending h w) (module sd))); simpl.
    + rewrite !retries_app.
      assert (retries (map (λ m, init m clientRouter) mods) = 0) as ->.
      { induction mods as [|m mods IH]; [done|]. exact IH. }
      unfold budget; simpl. done.
    + unfold budget; simpl. destruct (isRetry w); cbv; lia.
  - unfold onRejected, budget.
    change (isRetry (dropPending h w)) with (isRetry w).
    destruct (isRetry w) eqn:Hr; simpl; rewrite ?Hr; [cbv; lia|].
    destruct (bool_decide (NODE_ENV = "development"%string));
      simpl; rewrite ?Hr; cbv; lia.
Qed.

Lemma step_budget w e :
  retries (trace (step w e).2) + budget (step w e).1 ≤ budget w.
Proof.
  destruct e as [sd ctx|h outcome|]; simpl.
  - unfold pageHandler.
    destruct (envExcluded env_id sd); [simpl; lia|].
    destruct (isLoaded w (module sd)); simpl; unfold budget; simpl; lia.
  - destruct (pending w !! h) as [[sd ctx]|] eqn:Hp; simpl; [|lia].
    unfold trace; simpl. rewrite app_nil_r. apply settle_budget.
  - rewrite trace_timerCallbacks. unfold budget; simpl. lia.
Qed.

Lemma run_budget events : ∀ w,
  retries (trace (run w events).2) + budget (run w events).1 ≤ budget w.
Proof.
  induction events as [|e rest IH]; intros w; simpl; [lia|].
  rewrite trace_app, retries_app.
  specialize (IH (step w e).1). pose proof (step_budget w e). lia.
Qed.

(** C2: when a load fails and this is not yet a retry and the
    environment is not development, the chain calls the retry of the
    same section once and does nothing else but clear its timer;
    otherwise it dispatches [SECTION_SET] with [isLoading] false and
    shows the loading error for the route context. Over any run at most
    one retry is ever asked for, and none once a retry has been asked
    for. *)
Theorem failure_retries_once_then_shows :
  (∀ w h sd ctx,
     pending w !! h = Some (sd, ctx) →
     isRetry w = false → NODE_ENV ≠ "development"%string →
     (settle w h Rejected).2 =
       [ LoadingError_retry (name sd); clearTimeout h ]
     ∧ isRetry (settle w h Rejected).1 = true)
  ∧ (∀ w h sd ctx,
     pending w !! h = Some (sd, ctx) →
     isRetry w = true ∨ NODE_ENV = "development"%string →
     (settle w h Rejected).2 =
       [ dispatch ctx (SECTION_SET false);
         LoadingError_show ctx (name sd);
         clearTimeout h ])
  ∧ (∀ w events,
     retries (trace (run w events).2) ≤ (if isRetry w then 0 else 1)).
Proof.
  split; [|split].
  - intros w h sd ctx Hp Hr Hdev.
    rewrite (settle_pending _ _ _ _ _ Hp). simpl. unfold onRejected.
    change (isRetry (dropPending h w)) with (isRetry w). rewrite Hr.
    by rewrite bool_decide_eq_false_2.
  - intros w h sd ctx Hp Hor.
    rewrite (settle_pending _ _ _ _ _ Hp). simpl. unfold onRejected.
    change (isRetry (dropPending h w)) with (isRetry w).
    destruct Hor as [-> | ->]; [done|].
    rewrite bool_decide_eq_true_2 by done.
    by rewrite andb_false_r.
  - intros w events. pose proof (run_budget events w) as H.
    unfold budget in H at 2. lia.
Qed.

(** *** The loading flag *)

Lemma loadingFlag_app s tr1 : ∀ flag tr2,
  loadingFlag s flag (tr1 ++ tr2) = loadingFlag s (loadingFlag s flag tr1) tr2.
Proof.
  induction tr1 as [|e tr1 IH]; intros flag tr2; [done|].
  destruct e as [| c [b| |] | | | | | | |]; simpl; try apply IH.
  case_decide; apply IH.
Qed.

Lemma not_in_inits c a mods :
  dispatch c a ∉ map (λ m, init m clientRouter) mods.
Proof.
  induction mods as [|m mods IH]; simpl; [apply not_elem_of_nil|].
  apply not_elem_of_cons. split; [done|exact IH].
Qed.

Lemma not_in_callbacks t c l :
  t ∈ map (timerCallback) l → dispatch c (SECTION_SET false) ∉ effects t.
Proof.
  induction l as [|x l IH]; simpl; intros Ht.
  - by apply elem_of_nil in Ht.
  - apply elem_of_cons in Ht as [-> | Ht]; [|by apply IH].
    simpl. rewrite elem_of_cons, elem_of_nil. by intros [?|?].
Qed.

(** C10: the retry branch dispatches no [SECTION_SET] at all, so the
    loading flag of every store is what it was; in particular the flag
    raised when the load started is still raised after the failed load
    asked for its retry. A [SECTION_SET] with [isLoading] false is only
    ever dispatched as part of an activation or right before the loading
    error is shown. *)
Theorem retry_leaves_loading_flag :
  (∀ w h sd ctx,
     pending w !! h = Some (sd, ctx) →
     isRetry w = false → NODE_ENV ≠ "development"%string →
     (∀ c b, dispatch c (SECTION_SET b) ∉ (settle w h Rejected).2)
     ∧ (∀ s flag before,
        loadingFlag s flag (before ++ (settle w h Rejected).2)
        = loadingFlag s flag before))
  ∧ (∀ w sd ctx flag,
     envExcluded env_id sd = false → isLoaded w (module sd) = false →
     isRetry w = false → NODE_ENV ≠ "development"%string →
     loadingFlag (store ctx) flag
       ((pageHandler w sd ctx).2
        ++ (settle (pageHandler w sd ctx).1 (nextId w) Rejected).2)
     = Some true)
  ∧ (∀ w e t c,
     t ∈ (step w e).2 → dispatch c (SECTION_SET false) ∈ effects t →
     (∃ sd pre post, effects t = pre ++ activateSection sd c ++ post)
     ∨ (∃ sd h, effects t =
          [ dispatch c (SECTION_SET false);
            LoadingError_show c (name sd);
            clearTimeout h ])).
Proof.
  assert (∀ w h sd ctx,
     pending w !! h = Some (sd, ctx) →
     isRetry w = false → NODE_ENV ≠ "development"%string →
     (settle w h Rejected).2 =
       [ LoadingError_retry (name sd); clearTimeout h ]) as Hretry.
  { intros w h sd ctx Hp Hr Hdev.
    rewrite (settle_pending _ _ _ _ _ Hp). simpl. unfold onRejected.
    change (isRetry (dropPending h w)) with (isRetry w). rewrite Hr.
    by rewrite bool_decide_eq_false_2. }
  split; [|split].
  - intros w h sd ctx Hp Hr Hdev. rewrite (Hretry _ _ _ _ Hp Hr Hdev).
    split.
    + intros c b. rewrite !elem_of_cons, elem_of_nil. by intros [?|[?|?]].
    + intros s flag before. by rewrite loadingFlag_app.
  - intros w sd ctx flag He Hl Hr Hdev.
    unfold pageHandler. rewrite He, Hl. simpl.
    rewrite (Hretry _ _ sd ctx); [| |done|done].
    + simpl. by rewrite decide_True.
    + simpl. by rewrite lookup_insert_eq.
  - intros w e t c Ht Hin.
    destruct e as [sd ctx|h outcome|].
    + simpl in Ht. apply list_elem_of_singleton in Ht. subst t.
      simpl in Hin |- *. unfold pageHandler in Hin |- *.
      destruct (envExcluded env_id sd).
      { simpl in Hin. apply list_elem_of_singleton in Hin. done. }
      destruct (isLoaded w (module sd)); simpl in Hin |- *.
      * left. exists sd, [], [].
        assert (c = ctx) as ->.
        { unfold activateSection in Hin.
          rewrite !elem_of_cons, elem_of_nil in Hin.
          destruct Hin as [H|[H|[H|[H|[]]]]]; congruence. }
        done.
      * rewrite !elem_of_cons, elem_of_nil in Hin.
        destruct Hin as [H|[H|[H|[]]]]; congruence.
    + simpl in Ht. destruct (pending w !! h) as [[sd ctx]|] eqn:Hp.
      2:{ by apply elem_of_nil in Ht. }
      apply list_elem_of_singleton in Ht. subst t. simpl in Hin |- *.
      rewrite (settle_pending _ _ _ _ _ Hp) in Hin |- *. simpl in Hin |- *.
      destruct outcome as [mods|].
      * left. unfold onResolved in Hin |- *.
        destruct (negb (isLoaded (dropPending h w) (module sd)));
          simpl in Hin |- *.
        -- exists sd, (map (λ m, init m clientRouter) mods), [clearTimeout h].
           assert (c = ctx) as ->.
           { rewrite !elem_of_app in Hin.
             destruct Hin as [[Hin|Hin]|Hin].
             - by apply not_in_inits in Hin.
             - unfold activateSection in Hin.
               rewrite !elem_of_cons, elem_of_nil in Hin.
               destruct Hin as [H|[H|[H|[H|[]]]]]; congruence.
             - apply list_elem_of_singleton in Hin. done. }
           by rewrite <- app_assoc.
        -- exists sd, [], [clearTimeout h].
           assert (c = ctx) as ->; [|done].
           rewrite !elem_of_cons, elem_of_nil in Hin.
           destruct Hin as [H|[H|[H|[H|[H|[]]]]]]; congruence.
      * right. unfold onRejected in Hin |- *.
        destruct (negb (isRetry (dropPending h w)) && _); simpl in Hin |- *.
        -- rewrite !elem_of_cons, elem_of_nil in Hin.
           destruct Hin as [H|[H|[]]]; congruence.
        -- exists sd, h.
           assert (c = ctx) as ->; [|done].
           rewrite !elem_of_cons, elem_of_nil in Hin.
           destruct Hin as [H|[H|[H|[]]]]; congruence.
    + simpl in Ht. by apply not_in_callbacks with (c := c) in Ht.
Qed.

(** *** The slow-load timer *)

Lemma settle_frame w h sd ctx outcome :
  pending w !! h = Some (sd, ctx) →
  timers (settle w h outcome).1 = filter (λ t, t.1 ≠ h) (timers w)
  ∧ pending (settle w h outcome).1 = delete h (pending w)
  ∧ now (settle w h outcome).1 = now w
  ∧ nextId (settle w h outcome).1 = nextId w.
Proof.
  intros Hp. rewrite (settle_pending _ _ _ _ _ Hp).
  destruct outcome as [mods|]; simpl.
  - unfold onResolved.
    by destruct (negb (isLoaded (dropPending h w) (module sd))).
  - unfold onRejected.
    by destruct (negb (isRetry (dropPending h w)) && _).
Qed.

Lemma pageHandler_cases w sd ctx :
  (pageHandler w sd ctx).1 = w
  ∨ (pageHandler w sd ctx).1 = startLoad sd ctx w.
Proof.
  unfold pageHandler. destruct (envExcluded env_id sd); [by left|].
  destruct (isLoaded w (module sd)); [by left|by right].
Qed.

Lemma filter_other_handle (i h : nat) (l : list (nat * Timer)) :
  h ≠ i →
  filter (λ t, t.1 = i) (filter (λ t, t.1 ≠ h) l) = filter (λ t, t.1 = i) l.
Proof.
  intros Hne. rewrite list_filter_filter. apply list_filter_iff.
  intros [k tm]; simpl. split; [by intros [? _]|]. intros ->. done.
Qed.

Lemma filter_same_handle (i : nat) (l : list (nat * Timer)) :
  filter (λ t, t.1 = i) (filter (λ t, t.1 ≠ i) l) = [].
Proof.
  rewrite list_filter_filter. induction l as [|[k tm] l IH]; [done|].
  rewrite filter_cons. case_decide as H; [|done]. simpl in H. by destruct H.
Qed.

Lemma filter_due_handle (i t : nat) (b : bool) (l : list (nat * Timer)) :
  filter (λ tm, tm.1 = i) (filter (λ tm, due t tm = b) l)
  = filter (λ tm, due t tm = b) (filter (λ tm, tm.1 = i) l).
Proof.
  rewrite !list_filter_filter. apply list_filter_iff. intros x. tauto.
Qed.

Lemma timerTasks_callbacks i (l : list (nat * Timer)) :
  timerTasks i (map timerCallback l)
  = map timerCallback (filter (λ t, t.1 = i) l).
Proof.
  unfold timerTasks. induction l as [|[k tm] l IH]; [done|].
  simpl. rewrite !filter_cons. simpl.
  destruct (decide (k = i)) as [->|Hne].
  - rewrite decide_True by done. simpl. by rewrite IH.
  - rewrite decide_False by congruence. done.
Qed.

Lemma timersOf_startLoad i sd ctx w :
  i ≠ nextId w → timersOf i (startLoad sd ctx w) = timersOf i w.
Proof.
  intros Hne. unfold timersOf. simpl. rewrite filter_app.
  rewrite filter_cons. simpl. rewrite decide_False by done.
  by rewrite filter_nil, app_nil_r.
Qed.

(** What one step does to the timer with handle [i], as long as the step
    is not the settlement of load [i] itself. *)
Lemma step_timer w e i :
  i < nextId w → (∀ o, e ≠ PreloadSettles i o) →
  i < nextId (step w e).1
  ∧ pending (step w e).1 !! i = pending w !! i
  ∧ match e with
    | Tick =>
        now (step w e).1 = S (now w)
        ∧ timersOf i (step w e).1
          = filter (λ tm, due (S (now w)) tm = false) (timersOf i w)
        ∧ timerTasks i (step w e).2
          = map timerCallback
              (filter (λ tm, due (S (now w)) tm = true) (timersOf i w))
    | _ =>
        now (step w e).1 = now w
        ∧ timersOf i (step w e).1 = timersOf i w
        ∧ timerTasks i (step w e).2 = []
    end.
Proof.
  intros Hi Hne. destruct e as [sd ctx|h outcome|]; simpl.
  - destruct (pageHandler_cases w sd ctx) as [-> | ->].
    + done.
    + simpl. split; [lia|]. split.
      * rewrite lookup_insert_ne; [done|lia].
      * split; [done|]. split; [|done].
        apply timersOf_startLoad. lia.
  - destruct (pending w !! h) as [[sd ctx]|] eqn:Hp; [|done]. simpl.
    destruct (settle_frame w h sd ctx outcome Hp) as (Ht & Hpe & Hn & Hid).
    assert (h ≠ i) as Hhi. { intros ->. by apply (Hne outcome). }
    rewrite Hid, Hpe, Hn. split; [done|]. split.
    + by rewrite lookup_delete_ne.
    + split; [done|]. split; [|done].
      unfold timersOf. rewrite Ht. by apply filter_other_handle.
  - split; [done|]. split; [done|]. split; [done|]. split.
    + unfold timersOf. simpl. apply filter_due_handle.
    + rewrite timerTasks_callbacks. f_equal. apply filter_due_handle.
Qed.

Lemma timerTasks_app i log1 log2 :
  timerTasks i (log1 ++ log2) = timerTasks i log1 ++ timerTasks i log2.
Proof. unfold timerTasks. apply filter_app. Qed.

Lemma step_nextId w e : nextId w ≤ nextId (step w e).1.
Proof.
  destruct e as [sd ctx|h outcome|]; simpl; [| |done].
  - destruct (pageHandler_cases w sd ctx) as [-> | ->]; simpl; lia.
  - destruct (pending w !! h) as [[sd ctx]|] eqn:Hp; [|done]. simpl.
    destruct (settle_frame w h sd ctx outcome Hp) as (_ & _ & _ & ->). done.
Qed.

(** A handle without a timer never runs a callback again. *)
Lemma cancelled_never_fires events : ∀ w i,
  i < nextId w → timersOf i w = [] →
  timerTasks i (run w events).2 = [].
Proof.
  induction events as [|e rest IH]; intros w i Hi Hnone; [done|].
  simpl. rewrite timerTasks_app.
  assert (i < nextId (step w e).1) as Hi'.
  { pose proof (step_nextId w e). lia. }
  assert (timersOf i (step w e).1 = [] ∧ timerTasks i (step w e).2 = [])
    as [Ht ->]; [|by apply IH].
  destruct e as [sd ctx|h outcome|].
  - destruct (step_timer w (RouteMatch sd ctx) i Hi ltac:(done))
      as (_ & _ & _ & -> & ->). done.
  - destruct (decide (h = i)) as [->|Hne].
    + simpl. destruct (pending w !! i) as [[sd ctx]|] eqn:Hp; [|done]. simpl.
      destruct (settle_frame w i sd ctx outcome Hp) as (Ht & _).
      split; [|done]. unfold timersOf. rewrite Ht. apply filter_same_handle.
    + destruct (step_timer w (PreloadSettles h outcome) i Hi
                  ltac:(congruence)) as (_ & _ & _ & -> & ->). done.
  - destruct (step_timer w Tick i Hi ltac:(done))
      as (_ & _ & _ & -> & ->). by rewrite Hnone.
Qed.

(** The timer leaves the load alone: whatever else runs, a load that has
    not settled is still pending. *)
Lemma unsettled_stays_pending events : ∀ w i,
  i < nextId w → (∀ o, PreloadSettles i o ∉ events) →
  pending (run w events).1 !! i = pending w !! i
  ∧ i < nextId (run w events).1.
Proof.
  induction events as [|e rest IH]; intros w i Hi Hno; [done|].
  assert (∀ o, e ≠ PreloadSettles i o) as Hne.
  { intros o ->. apply (Hno o). by left. }
  assert (∀ o, PreloadSettles i o ∉ rest) as Hno'.
  { intros o Hin. apply (Hno o). by right. }
  destruct (step_timer w e i Hi Hne) as (Hi' & Hp & _).
  simpl. rewrite <- Hp. by apply IH.
Qed.

(** A pending timer runs its callback once, at the tick that reaches its
    deadline, unless its load settles first. *)
Lemma pending_timer_fires_once events : ∀ w i tm,
  i < nextId w → timersOf i w = [(i, tm)] → now w < deadline tm →
  (∀ o, PreloadSettles i o ∉ events) →
  timerTasks i (run w events).2
    = (if decide (deadline tm ≤ now w + ticks events)
       then [timerCallback (i, tm)] else []).
Proof.
  induction events as [|e rest IH]; intros w i tm Hi Htm Hnow Hno.
  - simpl. rewrite decide_False; [done|].
    unfold ticks; simpl. lia.
  - assert (∀ o, e ≠ PreloadSettles i o) as Hne.
    { intros o ->. apply (Hno o). by left. }
    assert (∀ o, PreloadSettles i o ∉ rest) as Hno'.
    { intros o Hin. apply (Hno o). by right. }
    rewrite run_cons. cbn [fst snd]. rewrite timerTasks_app.
    destruct (step_timer w e i Hi Hne) as (Hi' & Hp & Hcase).
    destruct e as [sd ctx|h outcome|].
    + destruct Hcase as (Hn & Ht & ->). rewrite Htm in Ht.
      rewrite (IH _ i tm Hi' Ht ltac:(by rewrite Hn) Hno').
      by rewrite Hn.
    + destruct Hcase as (Hn & Ht & ->). rewrite Htm in Ht.
      rewrite (IH _ i tm Hi' Ht ltac:(by rewrite Hn) Hno').
      by rewrite Hn.
    + destruct Hcase as (Hn & Ht & ->). rewrite Htm in Ht |- *.
      assert (ticks (Tick :: rest) = S (ticks rest)) as -> by done.
      rewrite !filter_cons, !filter_nil in *. unfold due in Ht |- *.
      cbn [fst snd] in Ht |- *.
      destruct (decide (deadline tm ≤ S (now w))) as [Hdue|Hnot].
      * rewrite bool_decide_eq_true_2 in Ht |- * by done.
        rewrite decide_False in Ht by done.
        rewrite decide_True by done.
        rewrite (cancelled_never_fires rest _ i Hi' Ht).
        by rewrite decide_True by lia.
      * rewrite bool_decide_eq_false_2 in Ht |- * by done.
        rewrite decide_True in Ht by done.
        rewrite decide_False by done.
        rewrite (IH _ i tm Hi' Ht ltac:(rewrite Hn; lia) Hno').
        rewrite Hn.
        destruct (decide (deadline tm ≤ S (now w) + ticks rest));
          [rewrite decide_True by lia|rewrite decide_False by lia]; done.
Qed.

Lemma wf_timersOf_fresh w : wf w → timersOf (nextId w) w = [].
Proof.
  unfold wf, timersOf. intros Hwf.
  induction (timers w) as [|[k tm] l IH]; [done|].
  apply Forall_cons in Hwf as [Hk Hl]. simpl in Hk.
  rewrite filter_cons. simpl. rewrite decide_False by lia. by apply IH.
Qed.

Lemma Forall_filter_keeps {A} (P Q : A → Prop) `{∀ x, Decision (Q x)}
    (l : list A) :
  Forall P l → Forall P (filter Q l).
Proof.
  induction 1 as [|x l Hx Hl IH]; [done|].
  rewrite filter_cons. case_decide; [by constructor|done].
Qed.

Lemma step_wf w e : wf w → wf (step w e).1.
Proof.
  unfold wf. intros Hwf. destruct e as [sd ctx|h outcome|]; simpl.
  - destruct (pageHandler_cases w sd ctx) as [-> | ->]; [done|]. simpl.
    apply Forall_app. split.
    + eapply Forall_impl; [exact Hwf|]. simpl. intros; lia.
    + apply Forall_singleton. simpl. lia.
  - destruct (pending w !! h) as [[sd ctx]|] eqn:Hp; [|done]. simpl.
    destruct (settle_frame w h sd ctx outcome Hp) as (-> & _ & _ & ->).
    by apply Forall_filter_keeps.
  - by apply Forall_filter_keeps.
Qed.

Lemma run_wf events : ∀ w, wf w → wf (run w events).1.
Proof.
  induction events as [|e rest IH]; intros w Hwf; [done|].
  simpl. apply IH. by apply step_wf.
Qed.

Lemma initial_wf : wf initial.
Proof. apply Forall_nil_2. Qed.

(** C7: a route match that starts a load arms one timer of 400 time
    units. As long as the load has not settled, the timer's callback has
    run exactly once if 400 time units have passed and not at all
    otherwise, and it dispatches the [calypso_chunk_waiting] stat of the
    section; the load is still pending whatever the timer did. When the
    load settles, resolved or rejected, the chain ends by clearing the
    timer, which never runs afterwards. *)
Theorem slow_load_reported_once w sd ctx events :
  wf w →
  envExcluded env_id sd = false → isLoaded w (module sd) = false →
  (∀ o, PreloadSettles (nextId w) o ∉ events) →
  let h := nextId w in
  let started := step w (RouteMatch sd ctx) in
  let waiting := run started.1 events in
  started.2 =
    [ {| label := HandlerTask sd ctx;
         effects := [ dispatch ctx (SECTION_SET true);
                      setTimeout h 400;
                      preload (name sd) ] |} ]
  ∧ timerTasks h waiting.2 =
      (if decide (400 ≤ ticks events)
       then [ {| label := TimerTask h;
                 effects := [ dispatch ctx
                   (bumpStat "calypso_chunk_waiting"%string (name sd)) ] |} ]
       else [])
  ∧ pending waiting.1 !! h = Some (sd, ctx)
  ∧ ∀ outcome later,
      let settled := step waiting.1 (PreloadSettles h outcome) in
      (∃ t chain, settled.2 = [t] ∧ label t = SettleTask h sd
                  ∧ effects t = chain ++ [clearTimeout h])
      ∧ timersOf h settled.1 = []
      ∧ timerTasks h (run settled.1 later).2 = [].
Proof.
  intros Hwf He Hl Hno h started waiting.
  assert (started = (startLoad sd ctx w,
            [ {| label := HandlerTask sd ctx;
                 effects := [ dispatch ctx (SECTION_SET true);
                              setTimeout h 400;
                              preload (name sd) ] |} ])) as Hs.
  { unfold started. simpl. unfold pageHandler. by rewrite He, Hl. }
  set (tm := {| deadline := now w + 400; timerContext := ctx;
                timerSection := name sd |}).
  assert (h < nextId started.1) as Hh. { rewrite Hs. simpl. unfold h. lia. }
  assert (timersOf h started.1 = [(h, tm)]) as Htm.
  { rewrite Hs. pose proof (wf_timersOf_fresh w Hwf) as Hfresh.
    unfold timersOf in Hfresh |- *. unfold h. cbn [fst timers startLoad].
    rewrite filter_app, Hfresh, filter_cons. simpl.
    by rewrite decide_True. }
  assert (now started.1 < deadline tm) as Hnow.
  { rewrite Hs. simpl. lia. }
  destruct (unsettled_stays_pending events started.1 h Hh Hno) as [Hp Hh'].
  assert (pending waiting.1 !! h = Some (sd, ctx)) as Hpend.
  { unfold waiting. rewrite Hp, Hs. simpl. by rewrite lookup_insert_eq. }
  split; [by rewrite Hs|]. split; [|split; [done|]].
  - unfold waiting.
    rewrite (pending_timer_fires_once events _ h tm Hh Htm Hnow Hno).
    rewrite Hs. simpl.
    destruct (decide (400 ≤ ticks events));
      [rewrite decide_True by lia|rewrite decide_False by lia]; done.
  - intros outcome later settled.
    destruct (settle_frame _ h sd ctx outcome Hpend) as (Ht & _ & _ & Hid).
    assert (settled = ((settle waiting.1 h outcome).1,
              [ {| label := SettleTask h sd;
                   effects := (settle waiting.1 h outcome).2 |} ])) as Hset.
    { unfold settled. simpl. by rewrite Hpend. }
    assert (timersOf h settled.1 = []) as Hnone.
    { rewrite Hset. unfold timersOf. simpl. rewrite Ht.
      apply filter_same_handle. }
    split; [|split; [done|]].
    + eexists _, _. split; [by rewrite Hset|]. split; [done|]. simpl.
      rewrite (settle_pending _ _ _ _ _ Hpend). done.
    + apply cancelled_never_fires; [|done].
      rewrite Hset. simpl. by rewrite Hid.
Qed.

End Facts.

(** *** Sample runs *)

(** A first visit loads, initialises and activates; the next visit only
    activates. *)
Example first_visit_then_revisit :
  trace (run "production" "production" initial
           [ RouteMatch themes themesContext;
             PreloadSettles 0 (Resolved themesModules);
             RouteMatch themes themesContext ]).2
  = [ dispatch themesContext (SECTION_SET true);
      setTimeout 0 400;
      preload "themes";
      init {| moduleDefault := "my-sites/themes" |} clientRouter;
      setSection themes themesContext;
      dispatch themesContext (SECTION_SET false);
      dispatch themesContext activateNextLayoutFocus;
      next themesContext;
      clearTimeout 0;
      setSection themes themesContext;
      dispatch themesContext (SECTION_SET false);
      dispatch themesContext activateNextLayoutFocus;
      next themesContext ].
Proof. vm_compute. reflexivity. Qed.

(** Two matches racing for the same unloaded section both load, but
    only the chain that settles first initialises. *)
Example racing_matches_initialise_once :
  filter (λ e, isInitCall e = true)
    (trace (run "production" "production" initial
              [ RouteMatch themes themesContext;
                RouteMatch themes {| path := "/design"; store := 0 |};
                PreloadSettles 1 (Resolved themesModules);
                PreloadSettles 0 (Resolved themesModules) ]).2)
  = [ init {| moduleDefault := "my-sites/themes" |} clientRouter ].
Proof. vm_compute. reflexivity. Qed.

(** A load that fails is retried once; when the retry fails too, the
    error is shown. *)
Example failing_twice :
  trace (run "production" "production" initial
           [ RouteMatch themes themesContext;
             PreloadSettles 0 Rejected;
             RouteMatch themes themesContext;
             PreloadSettles 1 Rejected ]).2
  = [ dispatch themesContext (SECTION_SET true);
      setTimeout 0 400;
      preload "themes";
      LoadingError_retry "themes";
      clearTimeout 0;
      dispatch themesContext (SECTION_SET true);
      setTimeout 1 400;
      preload "themes";
      dispatch themesContext (SECTION_SET false);
      LoadingError_show themesContext "themes";
      clearTimeout 1 ].
Proof. vm_compute. reflexivity. Qed.

(** A chunk that takes 400 time units is reported, and still loads. *)
Example slow_chunk :
  trace (run "production" "production" initial
           (RouteMatch themes themesContext
              :: replicate 400 Tick
              ++ [PreloadSettles 0 (Resolved themesModules)])).2
  = [ dispatch themesContext (SECTION_SET true);
      setTimeout 0 400;
      preload "themes";
      dispatch themesContext (bumpStat "calypso_chunk_waiting" "themes");
      init {| moduleDefault := "my-sites/themes" |} clientRouter;
      setSection themes themesContext;
      dispatch themesContext (SECTION_SET false);
      dispatch themesContext activateNextLayoutFocus;
      next themesContext;
      clearTimeout 0 ]
  ∧ trace (run "production" "production" initial
             (RouteMatch themes themesContext
                :: replicate 399 Tick
                ++ PreloadSettles 0 (Resolved themesModules)
                :: replicate 10 Tick)).2
  = [ dispatch themesContext (SECTION_SET true);
      setTimeout 0 400;
      preload "themes";
      init {| moduleDefault := "my-sites/themes" |} clientRouter;
      setSection themes themesContext;
      dispatch themesContext (SECTION_SET false);
      dispatch themesContext activateNextLayoutFocus;
      next themesContext;
      clearTimeout 0 ].
Proof. split; vm_compute; reflexivity. Qed.

(** [setupRoutes] registers a handler for each path of each section. *)
Example routes_of_samples :
  setupRoutes [themes; devdocs]
  = [ ("/themes", themes); ("/design", themes); ("/devdocs", devdocs) ]%string.
Proof. reflexivity. Qed.

(** *** The theorems at work on the themes and devdocs sections *)

Lemma activation_order_witness :
  (pageHandler "production" themesLoaded themes themesContext).2
    = activateSection themes themesContext
  ∧ (settle "production" themesLoading 0 (Resolved themesModules)).2
    = [ init {| moduleDefault := "my-sites/themes" |} clientRouter;
        setSection themes themesContext;
        dispatch themesContext (SECTION_SET false);
        dispatch themesContext activateNextLayoutFocus;
        next themesContext;
        clearTimeout 0 ].
Proof.
  destruct (activation_order "production" "production" themesLoaded
              themes themesContext) as (_ & Hmatch & _).
  destruct (activation_order "production" "production" themesLoading
              themes themesContext) as (_ & _ & Hload).
  split.
  - apply Hmatch; reflexivity.
  - apply (Hload 0 themesModules). reflexivity.
Defined.

Lemma excluded_environment_skips_witness :
  envId devdocs = Some ["development"; "wpcalypso"]%string
  ∧ pageHandler "production" initial devdocs themesContext
    = (initial, [next themesContext]).
Proof.
  split; [reflexivity|].
  apply (excluded_environment_skips "production" "production" initial
           devdocs themesContext ["development"; "wpcalypso"]%string).
  - reflexivity.
  - apply (bool_decide_unpack _). vm_compute. exact I.
Defined.

Lemma failure_retries_once_then_shows_witness :
  (settle "production" themesLoading 0 Rejected).2
    = [ LoadingError_retry "themes"; clearTimeout 0 ]
  ∧ (settle "development" themesLoading 0 Rejected).2
    = [ dispatch themesContext (SECTION_SET false);
        LoadingError_show themesContext "themes";
        clearTimeout 0 ].
Proof.
  split.
  - destruct (failure_retries_once_then_shows "production" "production")
      as (Hretry & _ & _).
    apply (Hretry themesLoading 0 themes themesContext);
      [reflexivity|reflexivity|discriminate].
  - destruct (failure_retries_once_then_shows "production" "development")
      as (_ & Hshow & _).
    apply (Hshow themesLoading 0 themes themesContext);
      [reflexivity|right; reflexivity].
Defined.

Lemma retry_leaves_loading_flag_witness :
  loadingFlag 0 None
    ((pageHandler "production" initial themes themesContext).2
     ++ (settle "production"
           (pageHandler "production" initial themes themesContext).1
           0 Rejected).2)
  = Some true.
Proof.
  destruct (retry_leaves_loading_flag "production" "production")
    as (_ & Hflag & _).
  apply (Hflag initial themes themesContext None);
    [reflexivity|reflexivity|reflexivity|discriminate].
Defined.

Lemma slow_load_reported_once_witness :
  wf initial
  ∧ timerTasks 0
      (run "production" "production" themesLoading (replicate 400 Tick)).2
    = [ {| label := TimerTask 0;
           effects := [ dispatch themesContext
                          (bumpStat "calypso_chunk_waiting" "themes") ] |} ].
Proof.
  split; [apply initial_wf|].
  destruct (slow_load_reported_once "production" "production" initial
              themes themesContext (replicate 400 Tick)) as (_ & Hfired & _).
  - apply initial_wf.
  - reflexivity.
  - reflexivity.
  - intros o Hin. apply elem_of_replicate in Hin as [Heq _]. discriminate.
  - exact Hfired.
Defined.

End MiddlewareFacts.

(** ** Further properties of the middleware *)

Module MiddlewareMore.
Import Middleware.

Section More.

Variable env_id : string.
Variable NODE_ENV : string.

Local Abbreviation pageHandler := (pageHandler env_id).
Local Abbreviation settle := (settle NODE_ENV).
Local Abbreviation step := (step env_id NODE_ENV).
Local Abbreviation run := (run env_id NODE_ENV).

Lemma calls_app p tr1 tr2 : calls p (tr1 ++ tr2) = calls p tr1 + calls p tr2.
Proof. unfold calls. by rewrite filter_app, length_app. Qed.

(** Every step takes one of the paths. *)
Lemma step_path w e : Path env_id NODE_ENV w e (step w e).
Proof.
  destruct e as [sd ctx|h outcome|]; simpl.
  - unfold pageHandler.
    destruct (envExcluded env_id sd) eqn:He; [by apply path_skip|].
    destruct (isLoaded w (module sd)) eqn:Hl;
      [by apply path_activate|by apply path_load].
  - destruct (pending w !! h) as [[sd ctx]|] eqn:Hp;
      [|by apply path_settled].
    rewrite (MiddlewareFacts.settle_pending _ _ _ _ _ _ Hp).
    destruct outcome as [mods|]; cbn zeta.
    + unfold onResolved.
      change (isLoaded (dropPending h w) (module sd))
        with (isLoaded w (module sd)).
      destruct (isLoaded w (module sd)) eqn:Hl; cbn [negb fst snd].
      * by eapply path_initialised.
      * by eapply path_initialise.
    + unfold onRejected.
      change (isRetry (dropPending h w)) with (isRetry w).
      destruct (isRetry w) eqn:Hr; cbn [negb andb fst snd].
      * eapply path_show; [done|by left].
      * destruct (decide (NODE_ENV = "development"%string)) as [Hdev|Hdev].
        -- rewrite bool_decide_eq_true_2 by done. cbn [negb fst snd].
           eapply path_show; [done|by right].
        -- rewrite bool_decide_eq_false_2 by done. cbn [negb fst snd].
           by eapply path_retry.
  - apply path_tick.
Qed.

(** *** Route registration *)

(** X1: [setupRoutes] registers a handler for a path and a section
    exactly when the section is declared and the path is one of its
    paths; there are as many handlers as declared paths, a section
    without paths gets none, and sections are registered in order. *)
Theorem setupRoutes_registers_each_path sections :
  (∀ p sd, (p, sd) ∈ setupRoutes sections ↔ sd ∈ sections ∧ p ∈ paths sd)
  ∧ length (setupRoutes sections)
    = sum_list (map (λ sd, length (paths sd)) sections)
  ∧ (∀ more, setupRoutes (sections ++ more)
             = setupRoutes sections ++ setupRoutes more).
Proof.
  unfold setupRoutes. split; [|split].
  - intros p sd. rewrite list_elem_of_In, in_flat_map. split.
    + intros (sd' & Hsd & Hin). apply in_map_iff in Hin as (p' & Heq & Hp).
      injection Heq as -> ->. by rewrite !list_elem_of_In.
    + intros [Hsd Hp]. exists sd. rewrite <- list_elem_of_In. split; [done|].
      apply in_map_iff. exists p. by rewrite <- list_elem_of_In.
  - induction sections as [|sd sections IH]; [done|].
    simpl. by rewrite length_app, length_map, IH.
  - intros more. apply flat_map_app.
Qed.

(** *** Counting along a run *)

Lemma trace_single l es : trace [task l es] = es.
Proof. unfold trace. simpl. apply app_nil_r. Qed.

Lemma trace_nil : trace [] = [].
Proof. done. Qed.

Lemma trace_concat log1 log2 : trace (log1 ++ log2) = trace log1 ++ trace log2.
Proof. unfold trace. by rewrite map_app, concat_app. Qed.

Lemma calls_nil p : calls p [] = 0.
Proof. done. Qed.

Lemma calls_cons p e tr :
  calls p (e :: tr) = (if p e then 1 else 0) + calls p tr.
Proof.
  unfold calls. rewrite filter_cons.
  destruct (p e); [by rewrite decide_True|by rewrite decide_False].
Qed.

Lemma calls_inits p mods :
  (∀ m, p (init m clientRouter) = false) →
  calls p (map (λ m, init m clientRouter) mods) = 0.
Proof.
  intros Hp. induction mods as [|m mods IH]; [done|].
  unfold calls in *. simpl. rewrite filter_cons.
  rewrite decide_False; [exact IH|]. by rewrite Hp.
Qed.

Lemma trace_cons t log : trace (t :: log) = effects t ++ trace log.
Proof. done. Qed.

Lemma calls_callbacks_stat l :
  calls isStatDispatch (trace (map timerCallback l)) = length l.
Proof.
  induction l as [|t l IH]; [done|].
  cbn [map length]. rewrite trace_cons, calls_app, IH. done.
Qed.

Lemma calls_callbacks_other p l :
  (∀ c g n, p (dispatch c (bumpStat g n)) = false) →
  calls p (trace (map timerCallback l)) = 0.
Proof.
  intros Hp. induction l as [|t l IH]; [done|].
  cbn [map]. rewrite trace_cons, calls_app, IH.
  unfold calls, timerCallback. cbn [effects].
  rewrite filter_cons, decide_False; [done|]. by rewrite Hp.
Qed.

Lemma size_delete_pending (m : gmap nat (SectionDefinition * Context)) h x :
  m !! h = Some x → size m = S (size (delete h m)).
Proof.
  intros Hm. rewrite <- (insert_delete_id m h x Hm) at 1.
  apply map_size_insert_None. apply lookup_delete_eq.
Qed.

Lemma size_insert_pending (m : gmap nat (SectionDefinition * Context)) h x :
  size (<[h := x]> m) ≤ S (size m).
Proof. rewrite map_size_insert. destruct (m !! h); simpl; lia. Qed.

Ltac paths w e :=
  destruct (step_path w e)
    as [sd ctx He|sd ctx He Hl|sd ctx He Hl|h outcome Hp
       |h sd ctx mods Hp Hl|h sd ctx mods Hp Hl
       |h sd ctx Hp Hr Hdev|h sd ctx Hp Hor|];
  cbn [fst snd]; rewrite ?trace_single, ?trace_nil.

Ltac count :=
  unfold activateSection;
  rewrite ?calls_app, ?calls_inits, ?calls_cons, ?calls_nil by done;
  cbn [isNextCall isPreloadCall isSetTimeoutCall isClearTimeoutCall
       isStatDispatch isDispatch isRetryCall isInitCall].

Lemma step_next w e :
  calls isNextCall (trace (step w e).2) + size (pending (step w e).1)
  ≤ (if isRouteMatch e then 1 else 0) + size (pending w).
Proof.
  paths w e; cbn [isRouteMatch]; count.
  - lia.
  - lia.
  - cbn [startLoad pending].
    pose proof (size_insert_pending (pending w) (nextId w) (sd, ctx)). lia.
  - lia.
  - cbn [cancelTimer markLoaded dropPending pending].
    rewrite (size_delete_pending (pending w) h _ Hp). lia.
  - cbn [cancelTimer dropPending pending].
    rewrite (size_delete_pending (pending w) h _ Hp). lia.
  - cbn [cancelTimer LoadingError_markRetry dropPending pending].
    rewrite (size_delete_pending (pending w) h _ Hp). lia.
  - cbn [cancelTimer dropPending pending].
    rewrite (size_delete_pending (pending w) h _ Hp). lia.
  - unfold tick. cbn [fst snd pending].
    rewrite calls_callbacks_other by done. lia.
Qed.

(** X2: over any run, [next] is called at most once per route match:
    the calls of [next] made so far plus the loads still pending never
    exceed the route matches plus the loads pending at the start. *)
Theorem next_at_most_once_per_match events : ∀ w,
  calls isNextCall (trace (run w events).2)
    + size (pending (run w events).1)
  ≤ routeMatches events + size (pending w).
Proof.
  induction events as [|e rest IH]; intros w; [cbn; lia|].
  rewrite MiddlewareFacts.run_cons. cbn [fst snd].
  rewrite trace_concat, calls_app.
  specialize (IH (step w e).1). pose proof (step_next w e) as Hstep.
  assert (routeMatches (e :: rest)
          = (if isRouteMatch e then 1 else 0) + routeMatches rest) as ->.
  { unfold routeMatches. rewrite filter_cons.
    destruct (isRouteMatch e); [by rewrite decide_True|by rewrite decide_False]. }
  lia.
Qed.

(** *** Timers armed and cleared *)

Lemma step_pendingFresh w e : pendingFresh w → pendingFresh (step w e).1.
Proof.
  unfold pendingFresh. intros Hw.
  paths w e; try done.
  - cbn [startLoad pending nextId]. intros k Hk.
    destruct (decide (k = nextId w)) as [->|Hne]; [lia|].
    rewrite lookup_insert_ne in Hk by done. specialize (Hw k Hk). lia.
  - cbn [cancelTimer markLoaded dropPending pending nextId]. intros k Hk.
    apply Hw. destruct (decide (h = k)) as [->|Hne].
    + rewrite lookup_delete_eq in Hk. by destruct Hk.
    + by rewrite lookup_delete_ne in Hk.
  - cbn [cancelTimer dropPending pending nextId]. intros k Hk.
    apply Hw. destruct (decide (h = k)) as [->|Hne].
    + rewrite lookup_delete_eq in Hk. by destruct Hk.
    + by rewrite lookup_delete_ne in Hk.
  - cbn [cancelTimer LoadingError_markRetry dropPending pending nextId].
    intros k Hk.
    apply Hw. destruct (decide (h = k)) as [->|Hne].
    + rewrite lookup_delete_eq in Hk. by destruct Hk.
    + by rewrite lookup_delete_ne in Hk.
  - cbn [cancelTimer dropPending pending nextId]. intros k Hk.
    apply Hw. destruct (decide (h = k)) as [->|Hne].
    + rewrite lookup_delete_eq in Hk. by destruct Hk.
    + by rewrite lookup_delete_ne in Hk.
Qed.

Lemma run_pendingFresh events : ∀ w,
  pendingFresh w → pendingFresh (run w events).1.
Proof.
  induction events as [|e rest IH]; intros w Hw; [done|].
  rewrite MiddlewareFacts.run_cons. cbn [fst]. apply IH.
  by apply step_pendingFresh.
Qed.

Lemma initial_pendingFresh : pendingFresh initial.
Proof. intros h [x Hx]. simpl in Hx. by rewrite lookup_empty in Hx. Qed.

Lemma step_timer_balance w e :
  pendingFresh w →
  calls isSetTimeoutCall (trace (step w e).2) + size (pending w)
  = calls isClearTimeoutCall (trace (step w e).2)
    + size (pending (step w e).1).
Proof.
  intros Hw. paths w e; count; try done.
  - cbn [startLoad pending]. rewrite map_size_insert_None; [lia|].
    destruct (pending w !! nextId w) eqn:Hn; [|done].
    assert (nextId w < nextId w) by (apply Hw; by eexists). lia.
  - cbn [cancelTimer markLoaded dropPending pending].
    rewrite (size_delete_pending (pending w) h _ Hp). lia.
  - cbn [cancelTimer dropPending pending].
    rewrite (size_delete_pending (pending w) h _ Hp). lia.
  - cbn [cancelTimer LoadingError_markRetry dropPending pending].
    rewrite (size_delete_pending (pending w) h _ Hp). lia.
  - cbn [cancelTimer dropPending pending].
    rewrite (size_delete_pending (pending w) h _ Hp). lia.
  - unfold tick. cbn [fst snd pending].
    by rewrite !calls_callbacks_other by done.
Qed.

(** X5: timers do not leak: over any run, the timers set plus the
    loads pending at the start are the timers cleared plus the loads
    still pending, so every load that has settled has cleared its timer,
    once. *)
Theorem every_settled_load_clears_its_timer events : ∀ w,
  pendingFresh w →
  calls isSetTimeoutCall (trace (run w events).2) + size (pending w)
  = calls isClearTimeoutCall (trace (run w events).2)
    + size (pending (run w events).1).
Proof.
  induction events as [|e rest IH]; intros w Hw; [done|].
  rewrite MiddlewareFacts.run_cons. cbn [fst snd].
  rewrite trace_concat, !calls_app.
  specialize (IH (step w e).1 (step_pendingFresh w e Hw)).
  pose proof (step_timer_balance w e Hw). lia.
Qed.

Lemma length_filter_due t (l : list (nat * Timer)) :
  length (filter (λ tm, due t tm = true) l)
    + length (filter (λ tm, due t tm = false) l)
  = length l.
Proof.
  induction l as [|x l IH]; [done|].
  rewrite !filter_cons. destruct (due t x); simpl; lia.
Qed.

Lemma step_stats w e :
  calls isStatDispatch (trace (step w e).2) + length (timers (step w e).1)
  ≤ calls isSetTimeoutCall (trace (step w e).2) + length (timers w).
Proof.
  paths w e; count; try lia.
  - cbn [startLoad timers]. rewrite length_app. simpl. lia.
  - cbn [cancelTimer markLoaded dropPending timers].
    pose proof (length_filter (λ t : nat * Timer, t.1 ≠ h) (timers w)). lia.
  - cbn [cancelTimer dropPending timers].
    pose proof (length_filter (λ t : nat * Timer, t.1 ≠ h) (timers w)). lia.
  - cbn [cancelTimer LoadingError_markRetry dropPending timers].
    pose proof (length_filter (λ t : nat * Timer, t.1 ≠ h) (timers w)). lia.
  - cbn [cancelTimer dropPending timers].
    pose proof (length_filter (λ t : nat * Timer, t.1 ≠ h) (timers w)). lia.
  - unfold tick. cbn [fst snd timers].
    rewrite calls_callbacks_stat, calls_callbacks_other by done.
    pose proof (length_filter_due (S (now w)) (timers w)). lia.
Qed.

(** X6: the waiting stat is dispatched at most once per load: the
    stats dispatched plus the timers still armed never exceed the timers
    set plus those armed at the start, and a timer is set exactly when a
    chunk is requested. *)
Theorem at_most_one_stat_per_load events : ∀ w,
  calls isStatDispatch (trace (run w events).2)
    + length (timers (run w events).1)
  ≤ calls isSetTimeoutCall (trace (run w events).2) + length (timers w)
  ∧ calls isSetTimeoutCall (trace (run w events).2)
    = calls isPreloadCall (trace (run w events).2).
Proof.
  induction events as [|e rest IH]; intros w; [cbn; lia|].
  rewrite MiddlewareFacts.run_cons. cbn [fst snd].
  rewrite trace_concat, !calls_app.
  destruct (IH (step w e).1) as [IH1 IH2].
  pose proof (step_stats w e).
  assert (calls isSetTimeoutCall (trace (step w e).2)
          = calls isPreloadCall (trace (step w e).2)) as Heq.
  { paths w e; count; try done.
    unfold tick. cbn [snd]. by rewrite !calls_callbacks_other by done. }
  lia.
Qed.

(** *** What marks a section *)

Lemma step_registry_frozen w e :
  isResolution e = false →
  _loadedSections (step w e).1 = _loadedSections w
  ∧ nextId w ≤ nextId (step w e).1.
Proof.
  intros He'. paths w e; try done.
  cbn [startLoad nextId]. split; [done|lia].
Qed.

(** X4: only a load that resolves marks a section: a run without a
    resolved load, whatever it matches, rejects or waits for, leaves
    [_loadedSections] as it was. *)
Theorem only_a_resolved_load_marks events : ∀ w,
  Forall (λ e, isResolution e = false) events →
  _loadedSections (run w events).1 = _loadedSections w.
Proof.
  induction events as [|e rest IH]; intros w Hall; [done|].
  apply Forall_cons in Hall as [He Hrest].
  rewrite MiddlewareFacts.run_cons. cbn [fst].
  rewrite (IH _ Hrest). by apply step_registry_frozen.
Qed.

Lemma run_nextId events : ∀ w, nextId w ≤ nextId (run w events).1.
Proof.
  induction events as [|e rest IH]; intros w; [done|].
  rewrite MiddlewareFacts.run_cons. cbn [fst].
  specialize (IH (step w e).1).
  pose proof (MiddlewareFacts.step_nextId env_id NODE_ENV w e). lia.
Qed.

(** X8: loads in flight are not shared: as long as no load has
    resolved, also after a load was rejected, every further match of a
    section that is not marked starts a load of its own, with the
    loading flag, a new timer and a new request for the chunk. *)
Theorem unmarked_section_loads_again w sd ctx events ctx' :
  envExcluded env_id sd = false → isLoaded w (module sd) = false →
  Forall (λ e, isResolution e = false) events →
  let first := step w (RouteMatch sd ctx) in
  let between := run first.1 events in
  trace first.2 =
    [ dispatch ctx (SECTION_SET true);
      setTimeout (nextId w) 400;
      preload (name sd) ]
  ∧ trace (step between.1 (RouteMatch sd ctx')).2 =
    [ dispatch ctx' (SECTION_SET true);
      setTimeout (nextId between.1) 400;
      preload (name sd) ]
  ∧ nextId w < nextId between.1.
Proof.
  intros He Hl Hall first between.
  assert (first = (startLoad sd ctx w,
            [task (HandlerTask sd ctx)
               [ dispatch ctx (SECTION_SET true);
                 setTimeout (nextId w) 400;
                 preload (name sd) ]])) as Hfirst.
  { unfold first. simpl. unfold Middleware.pageHandler. by rewrite He, Hl. }
  assert (isLoaded between.1 (module sd) = false) as Hl'.
  { unfold isLoaded, between.
    rewrite (only_a_resolved_load_marks events _ Hall), Hfirst. exact Hl. }
  split; [by rewrite Hfirst|]. split.
  - simpl. unfold Middleware.pageHandler. by rewrite He, Hl'.
  - pose proof (run_nextId events first.1) as Hn. fold between in Hn.
    rewrite Hfirst in Hn. simpl in Hn. lia.
Qed.

(** *** Development *)

Lemma step_development w e :
  NODE_ENV = "development"%string →
  retries (trace (step w e).2) = 0 ∧ isRetry (step w e).1 = isRetry w.
Proof.
  intros Hdev'.
  paths w e; change retries with (calls isRetryCall); count; try done.
  unfold tick. cbn [fst snd]. by rewrite calls_callbacks_other.
Qed.

(** X11: in development no retry is ever asked for, over any run, and
    the retry mark stays as it was. *)
Theorem development_never_retries events : ∀ w,
  NODE_ENV = "development"%string →
  retries (trace (run w events).2) = 0
  ∧ isRetry (run w events).1 = isRetry w.
Proof.
  induction events as [|e rest IH]; intros w Hdev; [done|].
  rewrite MiddlewareFacts.run_cons. cbn [fst snd].
  destruct (IH (step w e).1 Hdev) as [IH1 IH2].
  destruct (step_development w e Hdev) as [H1 H2].
  rewrite trace_concat, MiddlewareFacts.retries_app. rewrite IH1, IH2, H1, H2.
  done.
Qed.

(** *** Whom a task talks to *)

Lemma inits_have_no_context x mods :
  x ∈ map (λ m, init m clientRouter) mods → contextOf x = None.
Proof.
  induction mods as [|m mods IH]; simpl; intros Hx.
  - by apply elem_of_nil in Hx.
  - apply elem_of_cons in Hx as [->|Hx]; [done|by apply IH].
Qed.

Ltac members H :=
  repeat (apply elem_of_cons in H as [->|H]);
  [..|by apply elem_of_nil in H].

Lemma callbacks_of_timers t (l : list (nat * Timer)) :
  t ∈ map timerCallback l → ∃ tm, tm ∈ l ∧ t = timerCallback tm.
Proof.
  induction l as [|x l IH]; simpl; intros Ht.
  - by apply elem_of_nil in Ht.
  - apply elem_of_cons in Ht as [->|Ht].
    + exists x. split; [by left|done].
    + destruct (IH Ht) as (tm & Hin & ->). exists tm. split; [by right|done].
Qed.

(** X12: a task only talks to its own context: whatever a handler
    dispatches, selects or passes on is addressed to the context of its
    route match, a settled load to the context that started it, and a
    timer to the context it was armed with. *)
Theorem effects_stay_with_their_context w e t x c :
  t ∈ (step w e).2 → x ∈ effects t → contextOf x = Some c →
  match label t with
  | HandlerTask _ ctx => c = ctx
  | SettleTask h _ => ∃ sd, pending w !! h = Some (sd, c)
  | TimerTask h => ∃ tm, (h, tm) ∈ timers w ∧ timerContext tm = c
  end.
Proof.
  intros Ht Hx Hc. revert Ht.
  paths w e; intros Ht.
  - apply list_elem_of_singleton in Ht. subst t. cbn in Hx |- *.
    members Hx; cbn in Hc; congruence.
  - apply list_elem_of_singleton in Ht. subst t. cbn in Hx |- *.
    members Hx; cbn in Hc; congruence.
  - apply list_elem_of_singleton in Ht. subst t. cbn in Hx |- *.
    members Hx; cbn in Hc; congruence.
  - by apply elem_of_nil in Ht.
  - apply list_elem_of_singleton in Ht. subst t. cbn [task label effects] in *.
    exists sd. rewrite Hp. do 2 f_equal.
    apply elem_of_app in Hx as [Hx|Hx];
      [apply elem_of_app in Hx as [Hx|Hx]|].
    + apply inits_have_no_context in Hx. congruence.
    + unfold activateSection in Hx. members Hx; cbn in Hc; congruence.
    + members Hx; cbn in Hc; congruence.
  - apply list_elem_of_singleton in Ht. subst t. cbn [task label effects] in *.
    exists sd. rewrite Hp. do 2 f_equal.
    apply elem_of_app in Hx as [Hx|Hx].
    + unfold activateSection in Hx. members Hx; cbn in Hc; congruence.
    + members Hx; cbn in Hc; congruence.
  - apply list_elem_of_singleton in Ht. subst t. cbn [task label effects] in *.
    members Hx; cbn in Hc; congruence.
  - apply list_elem_of_singleton in Ht. subst t. cbn [task label effects] in *.
    exists sd. rewrite Hp. do 2 f_equal.
    members Hx; cbn in Hc; congruence.
  - unfold tick in Ht. cbn [snd] in Ht.
    apply callbacks_of_timers in Ht as ([k tm] & Hin & ->).
    apply list_elem_of_filter in Hin as [_ Hin].
    cbn in Hx |- *. members Hx. cbn in Hc. exists tm. split; [done|congruence].
Qed.

(** *** Timers and their loads *)

Lemma owned_after_settle w w' h :
  pending w' = delete h (pending w) →
  timers w' = filter (λ t, t.1 ≠ h) (timers w) →
  nextId w' = nextId w →
  timersOwned w → timersOwned w'.
Proof.
  unfold timersOwned. intros Hpe Hti Hid Hw.
  rewrite Hti. apply Forall_forall. intros t Ht.
  apply list_elem_of_filter in Ht as [Hne Ht].
  rewrite Forall_forall in Hw. destruct (Hw t Ht) as (Hlt & sd & ctx & Hp & Hrest).
  split; [by rewrite Hid|]. exists sd, ctx. split; [|done].
  rewrite Hpe. by rewrite lookup_delete_ne.
Qed.

Lemma step_timersOwned w e : timersOwned w → timersOwned (step w e).1.
Proof.
  intros Hw. paths w e; try done.
  - unfold timersOwned. cbn [startLoad timers]. apply Forall_app. split.
    + eapply Forall_impl; [exact Hw|]. intros t (Hlt & sd' & ctx' & Hp & Hrest).
      split; [cbn; lia|]. exists sd', ctx'. split; [|done].
      cbn. rewrite lookup_insert_ne; [done|lia].
    + apply Forall_singleton. split; [cbn; lia|]. exists sd, ctx.
      split; [|done]. cbn. by rewrite lookup_insert_eq.
  - by apply (owned_after_settle w _ h).
  - by apply (owned_after_settle w _ h).
  - by apply (owned_after_settle w _ h).
  - by apply (owned_after_settle w _ h).
  - unfold timersOwned, tick. cbn [fst timers].
    apply Forall_forall. intros t Ht.
    apply list_elem_of_filter in Ht as [_ Ht].
    unfold timersOwned in Hw. rewrite Forall_forall in Hw. exact (Hw t Ht).
Qed.

Lemma run_timersOwned events : ∀ w,
  timersOwned w → timersOwned (run w events).1.
Proof.
  induction events as [|e rest IH]; intros w Hw; [done|].
  rewrite MiddlewareFacts.run_cons. cbn [fst]. apply IH.
  by apply step_timersOwned.
Qed.

Lemma initial_timersOwned : timersOwned initial.
Proof. apply Forall_nil_2. Qed.

(** X7: a waiting stat is only ever dispatched for a load that is
    still pending, to the store of the context that started it, and
    under the name of its section. *)
Theorem stat_is_for_a_pending_load w events t :
  timersOwned w →
  t ∈ (step (run w events).1 Tick).2 →
  ∃ h sd ctx,
    label t = TimerTask h
    ∧ pending (run w events).1 !! h = Some (sd, ctx)
    ∧ effects t =
        [ dispatch ctx (bumpStat "calypso_chunk_waiting"%string (name sd)) ].
Proof.
  intros Hw Ht. apply (run_timersOwned events) in Hw.
  unfold timersOwned in Hw. rewrite Forall_forall in Hw.
  cbn [Middleware.step] in Ht. unfold tick in Ht. cbn [snd] in Ht.
  apply callbacks_of_timers in Ht as ([h tm] & Hin & ->).
  apply list_elem_of_filter in Hin as [_ Hin].
  destruct (Hw _ Hin) as (_ & sd & ctx & Hp & Hctx & Hname).
  exists h, sd, ctx. cbn in *. split; [done|]. split; [done|].
  by rewrite Hctx, Hname.
Qed.

(** *** Excluded sections *)

(** X3: when nothing is in flight and every section that is matched
    excludes the current environment, a run does nothing but call [next]
    once per match, in order: no chunk is requested, no action is
    dispatched, nothing is marked, and nothing is left pending. *)
Theorem excluded_sections_only_pass_on events : ∀ w,
  pending w = ∅ → timers w = [] →
  Forall (λ e, excludedMatch env_id e = true) events →
  trace (run w events).2 = passedOn events
  ∧ _loadedSections (run w events).1 = _loadedSections w
  ∧ isRetry (run w events).1 = isRetry w
  ∧ pending (run w events).1 = ∅
  ∧ timers (run w events).1 = [].
Proof.
  induction events as [|e rest IH]; intros w Hpe Hti Hall; [done|].
  apply Forall_cons in Hall as [He' Hrest].
  rewrite MiddlewareFacts.run_cons. cbn [fst snd]. rewrite trace_concat.
  assert (trace (step w e).2 = passedOn [e]
          ∧ _loadedSections (step w e).1 = _loadedSections w
          ∧ isRetry (step w e).1 = isRetry w
          ∧ pending (step w e).1 = ∅ ∧ timers (step w e).1 = [])
    as (Htr & Hreg & Hret & Hpe' & Hti').
  { paths w e; cbn [excludedMatch] in He'; try congruence; try done.
    - rewrite Hpe, lookup_empty in Hp. done.
    - rewrite Hpe, lookup_empty in Hp. done.
    - rewrite Hpe, lookup_empty in Hp. done.
    - rewrite Hpe, lookup_empty in Hp. done.
    - unfold tick. cbn [fst snd]. by rewrite Hti. }
  destruct (IH _ Hpe' Hti' Hrest) as (-> & -> & -> & -> & ->).
  rewrite Htr. by destruct e.
Qed.

(** *** The loading flag and the loads in flight *)

Lemma loadingFlag_inits s flag mods :
  loadingFlag s flag (map (λ m, init m clientRouter) mods) = flag.
Proof. induction mods as [|m mods IH]; [done|exact IH]. Qed.

Lemma loadingFlag_callbacks s flag l :
  loadingFlag s flag (trace (map timerCallback l)) = flag.
Proof. induction l as [|t l IH]; [done|exact IH]. Qed.

Lemma loadingFlag_activation s flag sd ctx h :
  loadingFlag s flag (activateSection sd ctx ++ [clearTimeout h])
  = if decide (store ctx = s) then Some false else flag.
Proof. simpl. by case_decide. Qed.

Lemma loadingFor_after_settle s w w' h sd ctx :
  pending w !! h = Some (sd, ctx) → store ctx ≠ s →
  pending w' = delete h (pending w) →
  loadingFor s w → loadingFor s w'.
Proof.
  intros Hp Hne Hpe (h' & sd' & ctx' & Hp' & Hs).
  exists h', sd', ctx'. split; [|done].
  rewrite Hpe, lookup_delete_ne; [done|].
  intros ->. rewrite Hp in Hp'. injection Hp' as <- <-. done.
Qed.

Lemma step_no_stuck_flag s w e flag :
  isRetry w = true ∨ NODE_ENV = "development"%string →
  pendingFresh w →
  (flag = Some true → loadingFor s w) →
  (loadingFlag s flag (trace (step w e).2) = Some true →
   loadingFor s (step w e).1)
  ∧ (isRetry (step w e).1 = true ∨ NODE_ENV = "development"%string).
Proof.
  intros Hno Hfresh Hflag. paths w e.
  - split; [exact Hflag|exact Hno].
  - split; [|exact Hno]. simpl. case_decide; [done|exact Hflag].
  - split; [|exact Hno]. simpl. case_decide as Hs.
    + intros _. exists (nextId w), sd, ctx. split; [|done].
      cbn. by rewrite lookup_insert_eq.
    + intros Hf. destruct (Hflag Hf) as (h' & sd' & ctx' & Hp' & Hs').
      exists h', sd', ctx'. split; [|done]. cbn.
      rewrite lookup_insert_ne; [done|].
      assert (h' < nextId w) by (apply Hfresh; by eexists). lia.
  - split; [exact Hflag|exact Hno].
  - split; [|exact Hno]. rewrite <- app_assoc.
    rewrite MiddlewareFacts.loadingFlag_app, loadingFlag_inits.
    rewrite loadingFlag_activation. case_decide as Hs; [done|].
    intros Hf. by apply (loadingFor_after_settle s w _ h sd ctx); auto.
  - split; [|exact Hno].
    rewrite loadingFlag_activation. case_decide as Hs; [done|].
    intros Hf. by apply (loadingFor_after_settle s w _ h sd ctx); auto.
  - destruct Hno as [Hno|Hno]; congruence.
  - split; [|exact Hno]. simpl. case_decide as Hs; [done|].
    intros Hf. by apply (loadingFor_after_settle s w _ h sd ctx); auto.
  - split; [|exact Hno]. unfold tick. cbn [fst snd].
    rewrite loadingFlag_callbacks. exact Hflag.
Qed.

(** X10: where no retry can be asked for (in development, or once a
    retry was asked for), the loading flag of a store is never left
    raised without a load in flight: if the last [SECTION_SET]
    dispatched to the store says loading, a load started from that store
    is pending. *)
Theorem raised_flag_has_a_load_in_flight events : ∀ s w flag,
  isRetry w = true ∨ NODE_ENV = "development"%string →
  pendingFresh w →
  (flag = Some true → loadingFor s w) →
  loadingFlag s flag (trace (run w events).2) = Some true →
  loadingFor s (run w events).1.
Proof.
  induction events as [|e rest IH]; intros s w flag Hno Hfresh Hflag;
    [exact Hflag|].
  rewrite MiddlewareFacts.run_cons. cbn [fst snd].
  rewrite trace_concat, MiddlewareFacts.loadingFlag_app.
  destruct (step_no_stuck_flag s w e flag Hno Hfresh Hflag) as [Hstep Hno'].
  apply IH; [exact Hno'|by apply step_pendingFresh|exact Hstep].
Qed.

End More.

(** The converse of the last property fails: a match for a loaded
    section lowers the flag while another load is still in flight. *)
Example flag_may_drop_while_loading :
  let r := run "development" "production" themesLoaded
             [ RouteMatch devdocs {| path := "/devdocs"; store := 0 |};
               RouteMatch themes themesContext ] in
  loadingFlag 0 None (trace r.2) = Some false
  ∧ size (pending r.1) = 1.
Proof. vm_compute. done. Qed.

(** *** The properties at work on the sample sections *)

Lemma excluded_sections_only_pass_on_witness :
  trace (run "production" "production" initial
           [ RouteMatch devdocs themesContext; Tick;
             RouteMatch devdocs themesContext ]).2
  = [ next themesContext; next themesContext ].
Proof.
  destruct (excluded_sections_only_pass_on "production" "production"
              [ RouteMatch devdocs themesContext; Tick;
                RouteMatch devdocs themesContext ] initial) as (Htrace & _).
  - reflexivity.
  - reflexivity.
  - repeat constructor.
  - exact Htrace.
Defined.

Lemma only_a_resolved_load_marks_witness :
  _loadedSections
    (run "production" "production" initial
       [ RouteMatch themes themesContext; PreloadSettles 0 Rejected; Tick ]).1
  = ∅.
Proof.
  apply (only_a_resolved_load_marks "production" "production"
           [ RouteMatch themes themesContext; PreloadSettles 0 Rejected; Tick ]
           initial).
  repeat constructor.
Defined.

Lemma every_settled_load_clears_its_timer_witness :
  pendingFresh initial
  ∧ calls isSetTimeoutCall
      (trace (run "production" "production" initial
                [ RouteMatch themes themesContext;
                  RouteMatch themes themesContext;
                  PreloadSettles 0 (Resolved themesModules) ]).2)
    + size (pending initial)
    = calls isClearTimeoutCall
        (trace (run "production" "production" initial
                  [ RouteMatch themes themesContext;
                    RouteMatch themes themesContext;
                    PreloadSettles 0 (Resolved themesModules) ]).2)
      + size (pending
                (run "production" "production" initial
                   [ RouteMatch themes themesContext;
                     RouteMatch themes themesContext;
                     PreloadSettles 0 (Resolved themesModules) ]).1).
Proof.
  split; [apply initial_pendingFresh|].
  apply (every_settled_load_clears_its_timer "production" "production").
  apply initial_pendingFresh.
Defined.

Lemma stat_is_for_a_pending_load_witness :
  ∃ h sd ctx,
    pending
      (run "production" "production" initial
         (RouteMatch themes themesContext :: replicate 399 Tick)).1 !! h
    = Some (sd, ctx)
    ∧ effects (timerCallback
                 (0, {| deadline := 400; timerContext := themesContext;
                        timerSection := "themes" |}))
      = [ dispatch ctx (bumpStat "calypso_chunk_waiting" (name sd)) ].
Proof.
  destruct (stat_is_for_a_pending_load "production" "production" initial
              (RouteMatch themes themesContext :: replicate 399 Tick)
              (timerCallback
                 (0, {| deadline := 400; timerContext := themesContext;
                        timerSection := "themes" |})))
    as (h & sd & ctx & _ & Hp & He).
  - apply initial_timersOwned.
  - vm_compute. left.
  - exists h, sd, ctx. split; [exact Hp|exact He].
Defined.

Lemma unmarked_section_loads_again_witness :
  trace (step "production" "production"
           (run "production" "production"
              (step "production" "production" initial
                 (RouteMatch themes themesContext)).1
              [ PreloadSettles 0 Rejected; Tick ]).1
           (RouteMatch themes themesContext)).2
  = [ dispatch themesContext (SECTION_SET true);
      setTimeout 1 400;
      preload "themes" ].
Proof.
  destruct (unmarked_section_loads_again "production" "production" initial
              themes themesContext [ PreloadSettles 0 Rejected; Tick ]
              themesContext) as (_ & Hagain & _).
  - reflexivity.
  - reflexivity.
  - repeat constructor.
  - exact Hagain.
Defined.

Lemma raised_flag_has_a_load_in_flight_witness :
  loadingFor 0
    (run "production" "development" initial
       [ RouteMatch themes themesContext; Tick ]).1.
Proof.
  apply (raised_flag_has_a_load_in_flight "production" "development"
           [ RouteMatch themes themesContext; Tick ] 0 initial None).
  - right. reflexivity.
  - apply initial_pendingFresh.
  - discriminate.
  - reflexivity.
Defined.

Lemma development_never_retries_witness :
  retries
    (trace (run "production" "development" initial
              [ RouteMatch themes themesContext;
                PreloadSettles 0 Rejected ]).2) = 0.
Proof.
  apply (development_never_retries "production" "development"
           [ RouteMatch themes themesContext; PreloadSettles 0 Rejected ]
           initial).
  reflexivity.
Defined.

Lemma effects_stay_with_their_context_witness :
  ∃ sd, pending themesLoading !! 0 = Some (sd, themesContext).
Proof.
  apply (effects_stay_with_their_context "production" "production"
           themesLoading (PreloadSettles 0 (Resolved themesModules))
           (task (SettleTask 0 themes)
              ((map (λ m, init m clientRouter) themesModules
                ++ activateSection themes themesContext)
               ++ [clearTimeout 0]))
           (next themesContext) themesContext).
  - vm_compute. left.
  - vm_compute. do 4 right. left.
  - reflexivity.
Defined.

End MiddlewareMore.

(** ** Initialisation when an entry point may throw *)

Module MiddlewareThrows.
Import Middleware.

Section Throws.

Variable env_id : string.
Variable NODE_ENV : string.

Local Abbreviation pageHandler := (pageHandler env_id).
Local Abbreviation settle := (settle NODE_ENV).
Local Abbreviation step := (step env_id NODE_ENV).
Local Abbreviation run := (run env_id NODE_ENV).
Local Abbreviation thenCatch := (thenCatch NODE_ENV).
Local Abbreviation settleT := (settleT NODE_ENV).
Local Abbreviation stepT := (stepT env_id NODE_ENV).
Local Abbreviation runT := (runT env_id NODE_ENV).

Lemma settleT_pending w h sd ctx outcome c :
  pending w !! h = Some (sd, ctx) →
  settleT w h outcome c =
    let r := match outcome with
             | Resolved mods => thenCatch (dropPending h w) sd ctx mods c
             | Rejected => onRejected NODE_ENV (dropPending h w) sd ctx
             end in
    (cancelTimer h r.1, r.2 ++ [clearTimeout h]).
Proof. intros H. unfold Middleware.settleT. by rewrite H. Qed.

(** A handler that returns is the chain of [settle]. *)
Lemma settleT_Returns w h outcome : settleT w h outcome Returns = settle w h outcome.
Proof.
  unfold Middleware.settleT, Middleware.settle.
  destruct (pending w !! h) as [[sd ctx]|]; [|done]. by destruct outcome.
Qed.

Lemma runT_cons e rest w :
  runT w (e :: rest) =
    ((runT (stepT w e).1 rest).1, (stepT w e).2 ++ (runT (stepT w e).1 rest).2).
Proof. done. Qed.

(** A run in which nothing throws is a run of [run]. *)
Lemma runT_returning events : ∀ w, runT w (map returning events) = run w events.
Proof.
  induction events as [|e rest IH]; intros w; [done|].
  cbn [map]. rewrite runT_cons, MiddlewareFacts.run_cons.
  cbn [Middleware.stepT]. by rewrite IH.
Qed.

Lemma existsb_take {A} (p : A → bool) (l : list A) k :
  existsb p l = false → existsb p (take k l) = false.
Proof.
  revert k. induction l as [|x l IH]; intros k H; [by destruct k|].
  destruct k; [done|]. simpl in *.
  apply orb_false_iff in H as [-> H]. simpl. by apply IH.
Qed.

Lemma no_init_in_inits_free_tail sd ctx k w h :
  existsb isInitCall
    (take k (activateSection sd ctx)
     ++ (onRejected NODE_ENV w sd ctx).2 ++ [clearTimeout h]) = false.
Proof.
  rewrite existsb_app. apply orb_false_iff. split.
  - by apply existsb_take.
  - apply MiddlewareFacts.no_init_in_rejection.
Qed.

Lemma map_take_inits k (mods : list LoadedModule) :
  take k (map (λ m, init m clientRouter) mods)
  = map (λ m, init m clientRouter) (take k mods).
Proof.
  revert k. induction mods as [|m mods IH]; intros k; [by destruct k|].
  destruct k; [done|]. simpl. by rewrite IH.
Qed.

Lemma onRejected_registry w sd ctx :
  _loadedSections (onRejected NODE_ENV w sd ctx).1 = _loadedSections w.
Proof. unfold onRejected. by destruct (negb (isRetry w) && _). Qed.

Lemma registry_cancelTimer h w :
  _loadedSections (cancelTimer h w) = _loadedSections w.
Proof. done. Qed.

Lemma onRejected_dropPending w h sd ctx :
  (onRejected NODE_ENV (dropPending h w) sd ctx).2
  = (onRejected NODE_ENV w sd ctx).2.
Proof.
  unfold onRejected. change (isRetry (dropPending h w)) with (isRetry w).
  by destruct (negb (isRetry w) && _).
Qed.

(** The three ways a resolved load whose handler throws can go: the
    module was marked and only the activation is cut short; an entry
    point throws, and the chain goes on as that of a rejected load; or
    the activation throws after every entry point has run and the module
    has been marked. *)
Lemma settleT_throws w h sd ctx mods n :
  pending w !! h = Some (sd, ctx) →
  (isLoaded w (module sd) = true
   ∧ existsb isInitCall (settleT w h (Resolved mods) (Throws n)).2 = false
   ∧ _loadedSections (settleT w h (Resolved mods) (Throws n)).1
     = _loadedSections w)
  ∨ (isLoaded w (module sd) = false ∧ n < length mods
     ∧ settleT w h (Resolved mods) (Throws n)
       = ((settle w h Rejected).1,
          map (λ m, init m clientRouter) (take (S n) mods)
            ++ (settle w h Rejected).2))
  ∨ (isLoaded w (module sd) = false ∧ length mods ≤ n
     ∧ (∃ rest,
          (settleT w h (Resolved mods) (Throws n)).2
            = map (λ m, init m clientRouter) mods ++ rest
          ∧ existsb isInitCall rest = false)
     ∧ _loadedSections (settleT w h (Resolved mods) (Throws n)).1
       = <[module sd := true]> (_loadedSections w)).
Proof.
  intros Hp. rewrite (settleT_pending _ _ _ _ _ _ Hp). cbn zeta.
  unfold Middleware.thenCatch, thenCalls.
  change (isLoaded (dropPending h w) (module sd)) with (isLoaded w (module sd)).
  destruct (isLoaded w (module sd)) eqn:Hl; cbn [negb andb app].
  - left. split; [done|].
    destruct (bool_decide (n < length (activateSection sd ctx))); cbn [fst snd].
    + split; [|by rewrite registry_cancelTimer, onRejected_registry].
      rewrite <- app_assoc. apply no_init_in_inits_free_tail.
    + unfold onResolved.
      change (isLoaded (dropPending h w) (module sd))
        with (isLoaded w (module sd)).
      rewrite Hl. cbn [negb fst snd]. split; [|done].
      apply MiddlewareFacts.no_init_in_activation.
  - right. destruct (decide (n < length mods)) as [Hlt|Hge].
    + left. split; [done|]. split; [done|].
      rewrite bool_decide_eq_true_2
        by (rewrite length_app, length_map; simpl; lia).
      rewrite (bool_decide_eq_false_2 (length mods ≤ n)) by lia.
      cbn [fst snd].
      rewrite take_app_le by (rewrite length_map; lia).
      rewrite map_take_inits.
      rewrite (MiddlewareFacts.settle_pending _ _ _ _ _ _ Hp). cbn zeta.
      cbn [fst snd]. by rewrite <- app_assoc.
    + right. split; [done|]. split; [lia|].
      rewrite (bool_decide_eq_true_2 (length mods ≤ n)) by lia.
      destruct (bool_decide
                  (n < length (map (λ m, init m clientRouter) mods
                               ++ activateSection sd ctx))); cbn [fst snd].
      * split.
        -- exists (take (S n - length mods) (activateSection sd ctx)
                   ++ (onRejected NODE_ENV
                         (markLoaded (module sd) (dropPending h w)) sd ctx).2
                   ++ [clearTimeout h]).
           split; [|apply no_init_in_inits_free_tail].
           rewrite take_app_ge by (rewrite length_map; lia).
           rewrite length_map. by rewrite <- !app_assoc.
        -- by rewrite registry_cancelTimer, onRejected_registry.
      * unfold onResolved.
        change (isLoaded (dropPending h w) (module sd))
          with (isLoaded w (module sd)).
        rewrite Hl. cbn [negb fst snd]. split; [|done].
        exists (activateSection sd ctx ++ [clearTimeout h]).
        split; [by rewrite <- app_assoc|].
        apply MiddlewareFacts.no_init_in_activation.
Qed.

Lemma stepT_keeps_loaded w e k :
  isLoaded w k = true → isLoaded (stepT w e).1 k = true.
Proof.
  intros Hk. destruct e as [e|h mods n]; cbn [Middleware.stepT].
  - by apply MiddlewareFacts.step_keeps_loaded.
  - destruct (pending w !! h) as [[sd ctx]|] eqn:Hp; [|done]. cbn [fst].
    destruct (settleT_throws w h sd ctx mods n Hp)
      as [(_ & _ & Hreg)|[(_ & _ & ->)|(_ & _ & _ & Hreg)]].
    + unfold isLoaded in *. by rewrite Hreg.
    + cbn [fst]. by apply MiddlewareFacts.settle_keeps_loaded.
    + unfold isLoaded in *. rewrite Hreg, lookup_insert.
      by case_decide.
Qed.

Lemma runT_keeps_loaded events : ∀ w k,
  isLoaded w k = true → isLoaded (runT w events).1 k = true.
Proof.
  induction events as [|e rest IH]; intros w k Hk; [done|].
  rewrite runT_cons. cbn [fst]. apply IH. by apply stepT_keeps_loaded.
Qed.

Lemma completedRounds_app m log1 log2 :
  completedRounds m (log1 ++ log2)
  = completedRounds m log1 ++ completedRounds m log2.
Proof. unfold completedRounds. apply filter_app. Qed.

Lemma completed_le_init m log :
  length (completedRounds m log) ≤ length (initRounds m log).
Proof.
  unfold completedRounds, initRounds.
  induction log as [|t log IH]; [done|].
  rewrite !filter_cons. destruct (label t) as [| h sd |]; try exact IH.
  destruct (bool_decide (module sd = m)); [|exact IH].
  destruct (existsb isInitCall (effects t)); [|exact IH].
  destruct (existsb isSetSectionCall (effects t)); simpl; lia.
Qed.

Lemma rounds_none m h sd es :
  module sd ≠ m ∨ existsb isInitCall es = false
  ∨ existsb isSetSectionCall es = false →
  completedRounds m [task (SettleTask h sd) es] = []
  ∧ (module sd ≠ m ∨ existsb isInitCall es = false →
     initRounds m [task (SettleTask h sd) es] = []).
Proof.
  intros Hor. split.
  - unfold completedRounds. rewrite filter_cons, filter_nil.
    cbn [task label effects]. rewrite decide_False; [done|].
    destruct Hor as [Hne|[-> | ->]].
    + by rewrite bool_decide_eq_false_2.
    + by rewrite andb_false_r.
    + by rewrite andb_false_r.
  - apply MiddlewareFacts.initRounds_none.
Qed.

Lemma no_setSection_in_rejected_load w h mods k :
  existsb isSetSectionCall
    (map (λ m, init m clientRouter) (take k mods) ++ (settle w h Rejected).2)
  = false.
Proof.
  rewrite existsb_app. apply orb_false_iff. split.
  - induction (take k mods) as [|m l IH]; [done|exact IH].
  - unfold Middleware.settle. destruct (pending w !! h) as [[sd ctx]|]; [|done].
    cbn [fst snd]. unfold onRejected.
    by destruct (negb (isRetry (dropPending h w)) && _).
Qed.

Lemma settle_rejected_registry w h :
  _loadedSections (settle w h Rejected).1 = _loadedSections w.
Proof.
  unfold Middleware.settle. destruct (pending w !! h) as [[sd ctx]|]; [|done].
  cbn [fst]. by rewrite registry_cancelTimer, onRejected_registry.
Qed.

Lemma stepT_rounds m w e :
  length (completedRounds m (stepT w e).2) + uninitialised m (stepT w e).1
  ≤ uninitialised m w
  ∧ (isLoaded w m = true → initRounds m (stepT w e).2 = []).
Proof.
  destruct e as [e|h mods n]; cbn [Middleware.stepT].
  - pose proof (MiddlewareFacts.step_initRounds env_id NODE_ENV m w e) as Hstep.
    pose proof (completed_le_init m (step w e).2) as Hle.
    split; [lia|]. intros Hl. unfold uninitialised in Hstep at 2.
    rewrite Hl in Hstep.
    destruct (initRounds m (step w e).2); [done|simpl in Hstep; lia].
  - destruct (pending w !! h) as [[sd ctx]|] eqn:Hp; [|by split; [simpl; lia|]].
    cbn [fst snd].
    destruct (settleT_throws w h sd ctx mods n Hp)
      as [(Hl & Hno & Hreg)|[(Hl & Hlt & Heq)|(Hl & Hge & (rest & Heq & Hno) & Hreg)]].
    + destruct (rounds_none m h sd _ (or_intror (or_introl Hno))) as [-> Hinit].
      split; [|intros _; apply Hinit; by right].
      unfold uninitialised, isLoaded. rewrite Hreg. simpl. lia.
    + rewrite Heq. cbn [fst snd].
      destruct (rounds_none m h sd _
                  (or_intror (or_intror
                     (no_setSection_in_rejected_load w h mods (S n)))))
        as [-> _].
      split.
      * unfold uninitialised, isLoaded. rewrite settle_rejected_registry.
        simpl. lia.
      * intros Hm. apply MiddlewareFacts.initRounds_none. left.
        intros <-. congruence.
    + split.
      * unfold uninitialised at 1, isLoaded. rewrite Hreg, lookup_insert.
        destruct (decide (module sd = m)) as [<-|Hne].
        -- unfold uninitialised. rewrite Hl. simpl.
           pose proof (length_filter
             (λ t, match label t with
                   | SettleTask _ sd0 =>
                       bool_decide (module sd0 = module sd)
                       && existsb isInitCall (effects t)
                       && existsb isSetSectionCall (effects t)
                   | _ => false
                   end = true)
             [task (SettleTask h sd)
                (Middleware.settleT NODE_ENV w h (Resolved mods) (Throws n)).2]).
           unfold completedRounds. simpl in *. lia.
        -- destruct (rounds_none m h sd
                       (Middleware.settleT NODE_ENV w h (Resolved mods)
                          (Throws n)).2 (or_introl Hne)) as [-> _].
           simpl. fold (isLoaded w m). unfold uninitialised. lia.
      * intros Hm. apply MiddlewareFacts.initRounds_none. left.
        intros <-. congruence.
Qed.

Lemma runT_rounds m events : ∀ w,
  length (completedRounds m (runT w events).2)
    + uninitialised m (runT w events).1
  ≤ uninitialised m w
  ∧ (isLoaded w m = true → initRounds m (runT w events).2 = []).
Proof.
  induction events as [|e rest IH]; intros w; [by split; [simpl; lia|]|].
  rewrite runT_cons. cbn [fst snd].
  rewrite completedRounds_app, length_app, MiddlewareFacts.initRounds_app.
  destruct (IH (stepT w e).1) as [IH1 IH2].
  destruct (stepT_rounds m w e) as [H1 H2]. split; [lia|].
  intros Hm. rewrite (H2 Hm), IH2; [done|]. by apply stepT_keeps_loaded.
Qed.

Lemma settleT_nextId w h outcome c :
  nextId (settleT w h outcome c).1 = nextId w.
Proof.
  unfold Middleware.settleT.
  destruct (pending w !! h) as [[sd ctx]|]; [|done]. cbn [fst].
  destruct outcome as [mods|]; cbn [cancelTimer nextId].
  - unfold Middleware.thenCatch, onResolved, onRejected.
    repeat (case_match; cbn [fst snd]); done.
  - unfold onRejected. by case_match.
Qed.

(** What a resolved load leaves in the registry. *)
Lemma settleT_registry w h sd ctx mods c :
  pending w !! h = Some (sd, ctx) →
  _loadedSections (settleT w h (Resolved mods) c).1
  = if isLoaded w (module sd) || negb (entryPointsReturn c mods)
    then _loadedSections w
    else <[module sd := true]> (_loadedSections w).
Proof.
  intros Hp. destruct c as [|n].
  - rewrite settleT_Returns.
    rewrite (MiddlewareFacts.settle_pending _ _ _ _ _ _ Hp). cbn zeta.
    unfold onResolved.
    change (isLoaded (dropPending h w) (module sd))
      with (isLoaded w (module sd)).
    by destruct (isLoaded w (module sd)).
  - cbn [entryPointsReturn].
    destruct (settleT_throws w h sd ctx mods n Hp)
      as [(Hl & _ & Hreg)|[(Hl & Hlt & ->)|(Hl & Hge & _ & Hreg)]].
    + by rewrite Hl.
    + rewrite Hl, bool_decide_eq_false_2 by lia. cbn [fst negb orb].
      apply settle_rejected_registry.
    + by rewrite Hl, bool_decide_eq_true_2 by lia.
Qed.

(** C3, as the code has it: a load that resolves for a section not yet
    marked runs the entry points of the loaded modules in order with the
    shared router. When all of them return, each has run once and the
    module is marked, also if the activation that follows throws. When
    one of them throws, the later ones are not run, the module stays
    unmarked and the chain goes on as that of a rejected load. A load
    that resolves for a marked module runs no entry point, however its
    handler ends. Once a module is marked, the mark survives every run,
    no task initialises it again, and a route match for it activates at
    once; over any run at most one task runs the entry points of a
    module and goes on to activate. *)
Theorem initialised_once_unless_thrown :
  (∀ w h sd ctx mods c,
     pending w !! h = Some (sd, ctx) → isLoaded w (module sd) = false →
     entryPointsReturn c mods = true →
     (∃ rest,
        (settleT w h (Resolved mods) c).2
          = map (λ m, init m clientRouter) mods ++ rest
        ∧ existsb isInitCall rest = false)
     ∧ _loadedSections (settleT w h (Resolved mods) c).1 !! module sd
       = Some true)
  ∧ (∀ w h sd ctx mods,
     pending w !! h = Some (sd, ctx) → isLoaded w (module sd) = false →
     (settleT w h (Resolved mods) Returns).2
       = map (λ m, init m clientRouter) mods
           ++ activateSection sd ctx ++ [clearTimeout h])
  ∧ (∀ w h sd ctx mods n,
     pending w !! h = Some (sd, ctx) → isLoaded w (module sd) = false →
     n < length mods →
     settleT w h (Resolved mods) (Throws n)
       = ((settle w h Rejected).1,
          map (λ m, init m clientRouter) (take (S n) mods)
            ++ (settle w h Rejected).2)
     ∧ _loadedSections (settleT w h (Resolved mods) (Throws n)).1
       = _loadedSections w)
  ∧ (∀ w h sd ctx mods c,
     pending w !! h = Some (sd, ctx) → isLoaded w (module sd) = true →
     existsb isInitCall (settleT w h (Resolved mods) c).2 = false
     ∧ _loadedSections (settleT w h (Resolved mods) c).1 = _loadedSections w)
  ∧ (∀ w events sd ctx,
     envExcluded env_id sd = false → isLoaded w (module sd) = true →
     stepT (runT w events).1 (returning (RouteMatch sd ctx)) =
       ((runT w events).1,
        [ task (HandlerTask sd ctx) (activateSection sd ctx) ]))
  ∧ (∀ w events m,
     isLoaded w m = true →
     isLoaded (runT w events).1 m = true
     ∧ initRounds m (runT w events).2 = [])
  ∧ (∀ w events m,
     length (completedRounds m (runT w events).2)
     ≤ (if isLoaded w m then 0 else 1)).
Proof.
  assert (∀ w h sd ctx mods,
     pending w !! h = Some (sd, ctx) →
     (settleT w h (Resolved mods) Returns).2
       = (if isLoaded w (module sd) then []
          else map (λ m, init m clientRouter) mods)
         ++ activateSection sd ctx ++ [clearTimeout h]
     ∧ _loadedSections (settleT w h (Resolved mods) Returns).1
       = if isLoaded w (module sd) then _loadedSections w
         else <[module sd := true]> (_loadedSections w)) as Hreturns.
  { intros w h sd ctx mods Hp. rewrite settleT_Returns.
    rewrite (MiddlewareFacts.settle_pending _ _ _ _ _ _ Hp). cbn zeta.
    unfold onResolved.
    change (isLoaded (dropPending h w) (module sd))
      with (isLoaded w (module sd)).
    destruct (isLoaded w (module sd)); cbn [negb fst snd]; [done|].
    by rewrite <- app_assoc. }
  split; [|split; [|split; [|split; [|split; [|split]]]]].
  - intros w h sd ctx mods c Hp Hl Hret. destruct c as [|n].
    + destruct (Hreturns w h sd ctx mods Hp) as [Heff Hreg].
      rewrite Hl in Heff, Hreg. split.
      * exists (activateSection sd ctx ++ [clearTimeout h]).
        split; [exact Heff|apply MiddlewareFacts.no_init_in_activation].
      * by rewrite Hreg, lookup_insert_eq.
    + cbn [entryPointsReturn] in Hret. apply bool_decide_eq_true_1 in Hret.
      destruct (settleT_throws w h sd ctx mods n Hp)
        as [(Hl' & _)|[(_ & Hlt & _)|(_ & _ & Hrest & Hreg)]];
        [congruence|lia|].
      split; [exact Hrest|]. by rewrite Hreg, lookup_insert_eq.
  - intros w h sd ctx mods Hp Hl.
    destruct (Hreturns w h sd ctx mods Hp) as [Heff _]. by rewrite Hl in Heff.
  - intros w h sd ctx mods n Hp Hl Hlt.
    destruct (settleT_throws w h sd ctx mods n Hp)
      as [(Hl' & _)|[(_ & _ & Heq)|(_ & Hge & _)]]; [congruence| |lia].
    split; [exact Heq|]. rewrite Heq. cbn [fst].
    apply settle_rejected_registry.
  - intros w h sd ctx mods c Hp Hl. destruct c as [|n].
    + destruct (Hreturns w h sd ctx mods Hp) as [Heff Hreg].
      rewrite Hl in Heff, Hreg. split; [|exact Hreg]. rewrite Heff.
      apply MiddlewareFacts.no_init_in_activation.
    + destruct (settleT_throws w h sd ctx mods n Hp)
        as [(_ & Hno & Hreg)|[(Hl' & _)|(Hl' & _)]]; [done|congruence..].
  - intros w events sd ctx He Hl. cbn [Middleware.stepT Middleware.step].
    unfold Middleware.pageHandler. rewrite He.
    by rewrite (runT_keeps_loaded events w _ Hl).
  - intros w events m Hl. split; [by apply runT_keeps_loaded|].
    by apply (runT_rounds m events w).
  - intros w events m. destruct (runT_rounds m events w) as [H _].
    unfold uninitialised in H at 2. lia.
Qed.

(** X9: the mark is per module, not per section: after a load of one
    section has run every entry point, or when the module was marked
    before, a match for any other section of the same module activates
    at once, without requesting its own chunk; after a load in which an
    entry point threw, the module is unmarked and the match requests the
    chunk of its own section. *)
Theorem sections_of_one_module_share_the_mark w h sd ctx mods c sd' ctx' :
  pending w !! h = Some (sd, ctx) →
  module sd' = module sd → envExcluded env_id sd' = false →
  (isLoaded w (module sd) = true ∨ entryPointsReturn c mods = true →
   step (settleT w h (Resolved mods) c).1 (RouteMatch sd' ctx')
   = ((settleT w h (Resolved mods) c).1,
      [ task (HandlerTask sd' ctx') (activateSection sd' ctx') ]))
  ∧ (isLoaded w (module sd) = false → entryPointsReturn c mods = false →
     (step (settleT w h (Resolved mods) c).1 (RouteMatch sd' ctx')).2
     = [ task (HandlerTask sd' ctx')
           [ dispatch ctx' (SECTION_SET true);
             setTimeout (nextId w) 400;
             preload (name sd') ] ]).
Proof.
  intros Hp Hmod He.
  pose proof (settleT_registry w h sd ctx mods c Hp) as Hreg.
  split.
  - intros Hor.
    assert (isLoaded (settleT w h (Resolved mods) c).1 (module sd') = true)
      as Hl.
    { rewrite Hmod. unfold isLoaded at 1. rewrite Hreg.
      destruct (isLoaded w (module sd)) eqn:Hw; [exact Hw|].
      destruct Hor as [?|Hret]; [done|]. rewrite Hret. cbn [negb orb].
      by rewrite lookup_insert_eq. }
    cbn [Middleware.step]. unfold Middleware.pageHandler. by rewrite He, Hl.
  - intros Hw Hret.
    assert (isLoaded (settleT w h (Resolved mods) c).1 (module sd') = false)
      as Hl.
    { rewrite Hmod. unfold isLoaded at 1. rewrite Hreg, Hw, Hret.
      cbn [negb orb]. exact Hw. }
    cbn [Middleware.step]. unfold Middleware.pageHandler. rewrite He, Hl.
    cbn [fst snd]. by rewrite settleT_nextId.
Qed.

End Throws.

(** A second entry point that throws, in production: the first has
    run, the section is not marked, and the retry is asked for; when the
    section is matched and loaded again, the first entry point runs a
    second time. *)
Lemma throwing_entry_point_counterexample :
  pending themesLoading !! 0 = Some (themes, themesContext)
  ∧ isLoaded themesLoading (module themes) = false
  ∧ (settleT "production" themesLoading 0 (Resolved twoModules) (Throws 1)).2
    = [ init uploadModule clientRouter;
        init sheetModule clientRouter;
        LoadingError_retry "themes";
        clearTimeout 0 ]
  ∧ isLoaded
      (settleT "production" themesLoading 0 (Resolved twoModules) (Throws 1)).1
      (module themes) = false
  ∧ calls (λ e, bool_decide (e = init uploadModule clientRouter))
      (trace (runT "production" "production" initial
                [ returning (RouteMatch themes themesContext);
                  throwing 0 twoModules 1;
                  returning (RouteMatch themes themesContext);
                  returning (PreloadSettles 1 (Resolved twoModules)) ]).2)
    = 2.
Proof. vm_compute. repeat split. Qed.

Lemma initialised_once_unless_thrown_witness :
  _loadedSections
    (settleT "production" themesLoading 0 (Resolved twoModules) (Throws 3)).1
    !! module themes = Some true
  ∧ settleT "production" themesLoading 0 (Resolved twoModules) (Throws 0)
    = ((settle "production" themesLoading 0 Rejected).1,
       [ init uploadModule clientRouter ]
         ++ (settle "production" themesLoading 0 Rejected).2)
  ∧ isLoaded
      (runT "production" "production" themesLoaded
         [ returning (RouteMatch themes themesContext);
           throwing 0 twoModules 1; returning Tick ]).1
      (module themes) = true.
Proof.
  destruct (initialised_once_unless_thrown "production" "production")
    as (Hfirst & _ & Hthrown & _ & _ & Hkept & _).
  split; [|split].
  - apply (Hfirst themesLoading 0 themes themesContext twoModules (Throws 3));
      reflexivity.
  - apply (Hthrown themesLoading 0 themes themesContext twoModules 0);
      [reflexivity|reflexivity|simpl; lia].
  - apply Hkept. reflexivity.
Defined.

Lemma sections_of_one_module_share_the_mark_witness :
  step "production" "production"
    (settleT "production" themesLoading 0 (Resolved themesModules) Returns).1
    (RouteMatch themeShowcase themesContext)
  = ((settleT "production" themesLoading 0 (Resolved themesModules) Returns).1,
     [ task (HandlerTask themeShowcase themesContext)
         (activateSection themeShowcase themesContext) ])
  ∧ (step "production" "production"
       (settleT "production" themesLoading 0 (Resolved themesModules)
          (Throws 0)).1
       (RouteMatch themeShowcase themesContext)).2
  = [ task (HandlerTask themeShowcase themesContext)
        [ dispatch themesContext (SECTION_SET true);
          setTimeout 1 400;
          preload "theme-showcase" ] ].
Proof.
  split.
  - apply (sections_of_one_module_share_the_mark "production" "production"
             themesLoading 0 themes themesContext themesModules Returns
             themeShowcase themesContext); [reflexivity..|].
    right. reflexivity.
  - apply (sections_of_one_module_share_the_mark "production" "production"
             themesLoading 0 themes themesContext themesModules (Throws 0)
             themeShowcase themesContext); reflexivity.
Defined.

End MiddlewareThrows.

(** ** Properties of the purchase selectors *)

Module PurchasesFacts.
Import Purchases.

(** *** The expectations of the test-suite *)

Example test_getPurchases :
  getPurchases (stateOf twoPurchases false true)
    = createPurchasesArray twoPurchases
  ∧ getPurchases (stateOf businessPlan false true)
    = createPurchasesArray businessPlan.
Proof. done. Qed.

Example test_getByPurchaseId :
  getByPurchaseId (stateOf twoPurchases false true) (Num (Int 2)) =
  Some {| id := Int 2; productName := Str "premium plan";
          siteId := Int 1337; active := false; amount := NaN;
          attachedToPurchaseId := NaN; canExplicitRenew := false;
          canDisableAutoRenew := false; currencyCode := undefined;
          currencySymbol := undefined; domain := undefined;
          error := null; expiryDate := undefined; expiryMoment := None;
          expiryStatus := ""; hasPrivacyProtection := false;
          includedDomain := undefined; isCancelable := false;
          isDomainRegistration := false; isRefundable := false;
          isRenewable := false; isRenewal := false; meta := undefined;
          payment := {| countryCode := undefined; countryName := undefined;
                        name := undefined; type := undefined |};
          priceText := "undefinedundefined"; productId := NaN;
          productSlug := undefined; pendingTransfer := false;
          refundPeriodInDays := undefined; refundAmount := NaN;
          refundText := "undefinedundefined"; renewDate := undefined;
          renewMoment := None; siteName := undefined;
          subscribedDate := undefined; subscriptionStatus := undefined;
          tagLine := undefined; userId := NaN |}.
Proof. vm_compute. reflexivity. Qed.

Example test_getSitePurchases :
  map siteId (getSitePurchases (stateOf sitePurchases false false)
                               (Num (Int 1234)))
  = [Int 1234; Int 1234].
Proof. vm_compute. reflexivity. Qed.

(** Two purchases of site 1337: none for site 1234, both for 1337. *)
Example site_scenario :
  getSitePurchases (stateOf twoPurchases true false) (Num (Int 1234)) = []
  ∧ map siteId (getSitePurchases (stateOf twoPurchases true false)
                                 (Num (Int 1337)))
    = [Int 1337; Int 1337].
Proof. split; vm_compute; reflexivity. Qed.

Example test_getIncludedDomainPurchase :
  meta <$> (find (λ purchase,
                    bool_decide (productSlug purchase = Str "value_bundle"))
                 (getPurchases (stateOf domainPurchases false false))
            ≫= getIncludedDomainPurchase (stateOf domainPurchases false false))
  = Some (Str "dev.live").
Proof. vm_compute. reflexivity. Qed.

Example test_isUserPaid :
  isUserPaid (stateOf [] false true) (Num (Int 123)) = false
  ∧ isUserPaid (stateOf examplePurchases false true) (Num (Int 123)) = true
  ∧ isUserPaid (stateOf examplePurchases false true) (Num (Int 65535)) = false
  ∧ isUserPaid (stateOf examplePurchases false false) (Num (Int 123)) = false.
Proof. vm_compute. done. Qed.

Example test_hasCancelableUserPurchases :
  hasCancelableUserPurchases (stateOf [] false true) (Num (Int 123)) = false
  ∧ hasCancelableUserPurchases (stateOf examplePurchases false true)
      (Num (Int 123)) = true
  ∧ hasCancelableUserPurchases (stateOf examplePurchases false true)
      (Num (Int 65535)) = false
  ∧ hasCancelableUserPurchases (stateOf examplePurchases false false)
      (Num (Int 123)) = false
  ∧ hasCancelableUserPurchases (stateOf (drop 2 examplePurchases) false false)
      (Num (Int 123)) = false.
Proof. vm_compute. done. Qed.

Example test_getUserPurchasedPremiumThemes :
  getUserPurchasedPremiumThemes (stateOf [] false true) (Num (Int 123))
    = Is []
  ∧ getUserPurchasedPremiumThemes (stateOf examplePurchases false false)
      (Num (Int 123)) = IsFalse
  ∧ (∃ theme,
       getUserPurchasedPremiumThemes (stateOf examplePurchases false true)
         (Num (Int 123)) = Is [theme]
       ∧ id theme = Int 3 ∧ productName theme = Str "premium theme"
       ∧ productSlug theme = Str "premium_theme" ∧ userId theme = Int 123).
Proof.
  split; [by vm_compute|]. split; [by vm_compute|].
  eexists. split; [vm_compute; reflexivity|]. done.
Qed.

Example test_isFetching :
  isFetchingUserPurchases
    {| purchases := {| data := []; error_ := null;
                       isFetchingSitePurchases_ := false;
                       isFetchingUserPurchases_ := true;
                       hasLoadedSitePurchasesFromServer := false;
                       hasLoadedUserPurchasesFromServer := false |} |} = true
  ∧ isFetchingSitePurchases
    {| purchases := {| data := []; error_ := null;
                       isFetchingSitePurchases_ := true;
                       isFetchingUserPurchases_ := false;
                       hasLoadedSitePurchasesFromServer := false;
                       hasLoadedUserPurchasesFromServer := false |} |} = true.
Proof. done. Qed.

(** [Number( s )]: white space is trimmed, fractions, exponents and the
    radix prefixes are read, the value is rounded to a double, and what
    is no numeric literal is [NaN]. *)
Example test_StringToNumber :
  map StringToNumber
    [ " 1234 "; "99.00"; "1e3"; "0x10"; "0b101"; "9007199254740993"; "";
      "12px"; "-0x10"; "0.5"; "-Infinity"; "1e400" ]%string
  = [ Int 1234; Int 99; Int 1000; Int 16; Int 5; Int 9007199254740992;
      Int 0; NaN; NaN; Frac 1 1; Infinite true; Infinite false ].
Proof. vm_compute. reflexivity. Qed.

(** [String( n )]: the shortest digits that read back as the number. *)
Example test_NumberToString :
  map NumberToString
    [ Int 1234; Int (-42); Frac 1 1; Frac 3602879701896397 55;
      Int (10 ^ 21); NaN; Infinite true ]
  = [ "1234"; "-42"; "0.5"; "0.1"; "1e+21"; "NaN"; "-Infinity" ]%string.
Proof. vm_compute. reflexivity. Qed.

(** *** Readiness gating *)

(** C1: while the user purchases have not been loaded from the server,
    [isUserPaid] and [hasCancelableUserPurchases] answer false and
    [getUserPurchasedPremiumThemes] answers false too, whatever the
    purchase data, the other flags and the user asked for. *)
Theorem not_loaded_answers_false state user :
  hasLoadedUserPurchasesFromServer (purchases state) = false →
  isUserPaid state user = false
  ∧ hasCancelableUserPurchases state user = false
  ∧ getUserPurchasedPremiumThemes state user = IsFalse.
Proof.
  intros Hflag.
  unfold isUserPaid, hasCancelableUserPurchases,
    getUserPurchasedPremiumThemes.
  by rewrite Hflag.
Qed.

(** *** The assembler on missing fields *)

Lemma strictEquals_true a b : strictEquals a b = true → a = b.
Proof.
  unfold strictEquals. intros H.
  destruct a as [| | |[]|], b as [| | |[]|]; try done;
    by apply bool_decide_eq_true_1 in H.
Qed.

Lemma strictEquals_Int z : strictEquals (Num (Int z)) (Num (Int z)) = true.
Proof. simpl. by apply bool_decide_eq_true_2. Qed.

Ltac field_cases H :=
  repeat (apply elem_of_cons in H as [H|H]; [injection H as -> ->|]);
  [..|by apply elem_of_nil in H].

Lemma missing_numeric raw k proj :
  (k, proj) ∈ numericFields → raw !! k = None →
  proj (createPurchaseObject raw) = NaN.
Proof.
  intros H Hnone. unfold numericFields in H.
  field_cases H; simpl; unfold get; by rewrite Hnone.
Qed.

Lemma missing_optional raw k proj :
  (k, proj) ∈ optionalFields → raw !! k = None →
  proj (createPurchaseObject raw) = undefined.
Proof.
  intros H Hnone. unfold optionalFields in H.
  field_cases H; simpl; unfold get; by rewrite Hnone.
Qed.

Lemma missing_flag raw k proj :
  (k, proj) ∈ flagFields → raw !! k = None →
  proj (createPurchaseObject raw) = false.
Proof.
  intros H Hnone. unfold flagFields in H.
  field_cases H; simpl; unfold get; by rewrite Hnone.
Qed.

Lemma getByPurchaseId_first state z before raw after :
  data (purchases state) = before ++ raw :: after →
  Forall (λ r, ToNumber (get r "ID") ≠ Int z) before →
  ToNumber (get raw "ID") = Int z →
  getByPurchaseId state (Num (Int z)) = Some (createPurchaseObject raw).
Proof.
  intros Hdata Hbefore Hid.
  unfold getByPurchaseId, getPurchases, createPurchasesArray.
  rewrite Hdata. clear Hdata.
  induction Hbefore as [|r before Hr _ IH]; cbn [app map].
  - rewrite filter_cons.
    change (id (createPurchaseObject raw)) with (ToNumber (get raw "ID")).
    rewrite Hid, strictEquals_Int. by rewrite decide_True.
  - rewrite filter_cons.
    change (id (createPurchaseObject r)) with (ToNumber (get r "ID")).
    rewrite decide_False; [exact IH|].
    intros Heq. apply strictEquals_true in Heq. congruence.
Qed.

(** C5: the record found for an id, however few of its fields are
    there, yields a complete view model and never a failure: every
    numeric field whose raw property is missing is [NaN], every optional
    field whose raw property is missing is [undefined], every flag whose
    raw property is missing is false; the [error] is [null], and a
    missing date gives a [null] moment. *)
Theorem missing_fields_degrade state z before raw after :
  data (purchases state) = before ++ raw :: after →
  Forall (λ r, ToNumber (get r "ID") ≠ Int z) before →
  ToNumber (get raw "ID") = Int z →
  ∃ view,
    getByPurchaseId state (Num (Int z)) = Some view
    ∧ id view = Int z
    ∧ (∀ k proj, (k, proj) ∈ numericFields → raw !! k = None →
       proj view = NaN)
    ∧ (∀ k proj, (k, proj) ∈ optionalFields → raw !! k = None →
       proj view = undefined)
    ∧ (∀ k proj, (k, proj) ∈ flagFields → raw !! k = None →
       proj view = false)
    ∧ error view = null
    ∧ (raw !! "expiry_date"%string = None → expiryMoment view = None)
    ∧ (raw !! "renew_date"%string = None → renewMoment view = None)
    ∧ (raw !! "expiry_status"%string = None → expiryStatus view = ""%string).
Proof.
  intros Hdata Hbefore Hid. exists (createPurchaseObject raw).
  split; [by eapply getByPurchaseId_first|].
  split; [exact Hid|].
  split; [intros k proj; apply missing_numeric|].
  split; [intros k proj; apply missing_optional|].
  split; [intros k proj; apply missing_flag|].
  split; [done|].
  repeat split; intros Hnone; simpl; unfold get; by rewrite Hnone.
Qed.

(** *** Normalising site identifiers *)

Local Open Scope Z_scope.

(** An integer that a double holds exactly rounds to itself. *)
Lemma roundToDouble_safe negative n :
  0 < n ≤ 2 ^ 53 →
  roundToDouble negative n 1 = Int (if negative then - n else n).
Proof.
  intros Hn. unfold roundToDouble.
  rewrite (proj2 (Z.eqb_neq n 0)) by lia.
  change (Z.log2 1) with 0. rewrite Z.sub_0_r.
  pose proof (Z.log2_spec n ltac:(lia)) as [Hlo Hhi].
  pose proof (Z.log2_nonneg n) as Hnn.
  assert (Z.log2 n ≤ 53) as Hle.
  { change 53 with (Z.log2 (2 ^ 53)). apply Z.log2_le_mono. lia. }
  assert (atLeast n 1 (Z.log2 n) = true) as ->.
  { unfold atLeast. rewrite (proj2 (Z.leb_le 0 _)) by lia.
    apply Z.leb_le. lia. }
  rewrite Z.max_l by lia.
  destruct (Z.leb_spec 0 (Z.log2 n - 52)) as [Hq|Hq].
  - assert (Z.log2 n = 52 ∨ Z.log2 n = 53) as [HL|HL] by lia.
    + rewrite HL in *. change (52 - 52) with 0. change (2 ^ 0) with 1.
      rewrite Z.mul_1_r, Z.div_1_r, Z.mod_1_r.
      change (1 <? 2 * 0) with false. change (2 * 0 =? 1) with false.
      cbn [orb andb]. unfold dyadic. cbn. by rewrite Z.mul_1_r.
    + rewrite HL in *. assert (n = 2 ^ 53) as -> by lia.
      by destruct negative.
  - rewrite Z.div_1_r, Z.mod_1_r. change (1 <? 2 * 0) with false.
    change (2 * 0 =? 1) with false. cbn [orb andb].
    rewrite (proj2 (Z.ltb_ge 971 _)) by lia.
    rewrite (proj2 (Z.eqb_neq _ 971)) by lia. cbn [orb andb].
    unfold dyadic. rewrite (proj2 (Z.leb_gt 0 _)) by lia.
    set (k := - (Z.log2 n - 52)).
    assert (0 < 2 ^ k) as Hk by (apply Z.pow_pos_nonneg; lia).
    assert (Z.gcd (n * 2 ^ k) (2 ^ k) = 2 ^ k) as ->.
    { rewrite Z.gcd_comm, Z.mul_comm. apply Z.gcd_mul_diag_l. lia. }
    rewrite Z.div_same by lia. rewrite Z.eqb_refl.
    by rewrite Z.div_mul by lia.
Qed.

Lemma digitIn_pretty_N_char d :
  (d < 10)%N → digitIn 10 (pretty_N_char d) = Some (Z.of_N d).
Proof.
  intros Hd.
  assert (d = 0 ∨ d = 1 ∨ d = 2 ∨ d = 3 ∨ d = 4 ∨ d = 5 ∨ d = 6 ∨ d = 7
          ∨ d = 8 ∨ d = 9)%N as Hcases by lia.
  repeat (destruct Hcases as [->|Hcases]; [by vm_compute|]).
  subst d. by vm_compute.
Qed.

(** Reading the digits that [pretty] wrote gives the number back. *)
Lemma digitRun_pretty_N_go x : ∀ s acc count,
  ∃ k, 0 ≤ k ∧ ((0 < x)%N → 0 < k)
       ∧ digitRun 10 acc count (pretty_N_go x s)
         = digitRun 10 (acc * 10 ^ k + Z.of_N x) (count + k) s.
Proof.
  induction (N.lt_wf_0 x) as [x _ IH]; intros s acc count.
  assert (x = 0 ∨ 0 < x)%N as [->|Hx] by lia.
  - exists 0. rewrite pretty_N_go_0. split; [done|]. split; [lia|].
    f_equal; lia.
  - rewrite pretty_N_go_step by done.
    destruct (IH (x `div` 10)%N ltac:(by apply N.div_lt)
                 (String (pretty_N_char (x `mod` 10)) s) acc count)
      as (k & Hk & _ & ->).
    exists (k + 1). split; [lia|]. split; [lia|].
    cbn [digitRun]. rewrite digitIn_pretty_N_char by (by apply N.mod_lt).
    f_equal; [|lia].
    rewrite Z.pow_add_r by lia. rewrite N2Z.inj_div, N2Z.inj_mod.
    change (Z.of_N 10) with 10. change (10 ^ 1) with 10.
    pose proof (Z.div_mod (Z.of_N x) 10 ltac:(lia)) as Hdiv.
    set (q := Z.of_N x / 10) in *. set (r := Z.of_N x mod 10) in *.
    rewrite Hdiv. ring.
Qed.

(** A positive number is written with a leading digit from 1 to 9. *)
Lemma pretty_N_go_head x : ∀ s,
  (0 < x)%N →
  ∃ a rest, pretty_N_go x s = String a rest ∧ 49 ≤ code a ≤ 57.
Proof.
  induction (N.lt_wf_0 x) as [x _ IH]; intros s Hx.
  rewrite pretty_N_go_step by done.
  destruct (N.eq_0_gt_0_cases (x `div` 10)) as [H0|Hpos].
  - rewrite H0, pretty_N_go_0. eexists _, _. split; [done|].
    apply N.div_small_iff in H0; [|done].
    rewrite N.mod_small by done.
    assert (x = 1 ∨ x = 2 ∨ x = 3 ∨ x = 4 ∨ x = 5 ∨ x = 6 ∨ x = 7
            ∨ x = 8 ∨ x = 9)%N as Hcases by lia.
    repeat (destruct Hcases as [->|Hcases]; [by vm_compute|]).
    subst x. by vm_compute.
  - apply IH; [by apply N.div_lt|done].
Qed.

Lemma skipWhiteSpace_visible a rest :
  33 ≤ code a ≤ 126 → skipWhiteSpace (String a rest) = String a rest.
Proof.
  intros Ha. cbn [skipWhiteSpace].
  assert (space1 a = false) as ->.
  { apply bool_decide_eq_false_2. rewrite !elem_of_cons, elem_of_nil. lia. }
  destruct rest as [|b rest]; [done|].
  assert (space2 a b = false) as ->.
  { apply bool_decide_eq_false_2. intros [= ? ?]. lia. }
  destruct rest as [|c rest]; [done|].
  assert (space3 a b c = false) as ->; [|done].
  apply bool_decide_eq_false_2. rewrite !elem_of_cons, elem_of_nil.
  intros [[[= ? ?] _]|[[= ? ? ?]|[[= ? ? ?]|[[= ? ? ?]|[[= ? ? ?]|Hnil]]]]];
    [lia..|by apply elem_of_nil in Hnil].
Qed.

Lemma isPrefix_Infinity a rest :
  code a ≠ 73 → isPrefix "Infinity" (String a rest) = false.
Proof.
  intros Ha. apply bool_decide_eq_false_2. simpl. intros [= -> _].
  by apply Ha.
Qed.

Lemma decimalValue_safe negative n :
  0 < n ≤ 2 ^ 53 →
  decimalValue negative n 0 = Int (if negative then - n else n).
Proof.
  intros Hn. unfold decimalValue.
  rewrite (proj2 (Z.eqb_neq n 0)) by lia.
  change (310 <=? 0) with false. cbv iota.
  pose proof (Z.log2_nonneg n).
  rewrite (proj2 (Z.leb_gt _ _)) by lia.
  change (0 <=? 0) with true. cbv iota.
  rewrite Z.pow_0_r, Z.mul_1_r. by apply roundToDouble_safe.
Qed.

Lemma unsignedDecimal_digits negative x :
  (0 < x)%N →
  unsignedDecimal negative (pretty_N_go x "")
  = Some (decimalValue negative (Z.of_N x) 0, ""%string).
Proof.
  intros Hx. destruct (pretty_N_go_head x "" Hx) as (a & rest & Hs & Ha).
  unfold unsignedDecimal. rewrite Hs, isPrefix_Infinity by lia.
  rewrite <- Hs.
  destruct (digitRun_pretty_N_go x "" 0 0) as (k & Hk & Hpos & ->).
  cbn [digitRun]. rewrite (proj2 (Z.eqb_neq _ 0)) by lia. done.
Qed.

Lemma numericLiteral_digits x :
  (0 < x)%N →
  numericLiteral (pretty_N_go x "")
  = Some (decimalValue false (Z.of_N x) 0, ""%string).
Proof.
  intros Hx. destruct (pretty_N_go_head x "" Hx) as (a & rest & Hs & Ha).
  rewrite <- (unsignedDecimal_digits false x Hx). rewrite Hs.
  unfold numericLiteral.
  assert (a ≠ "0"%char ∧ a ≠ "-"%char ∧ a ≠ "+"%char) as (H0 & Hminus & Hplus).
  { repeat split; intros ->; revert Ha; by vm_compute; intros []. }
  by rewrite !bool_decide_eq_false_2 by done.
Qed.

(** [Number] of the decimal string of an integer that a double holds
    exactly is that integer. *)
Lemma StringToNumber_pretty z :
  Z.abs z ≤ 2 ^ 53 → StringToNumber (pretty z) = Int z.
Proof.
  intros Hz. destruct z as [|p|p]; [by vm_compute|..].
  - unfold pretty, pretty_Z, pretty, pretty_positive, pretty, pretty_N.
    rewrite decide_False by done.
    destruct (pretty_N_go_head (N.pos p) "" ltac:(done))
      as (a & rest & Hs & Ha).
    unfold StringToNumber.
    rewrite Hs, skipWhiteSpace_visible by lia. rewrite <- Hs.
    rewrite numericLiteral_digits by done. cbn [skipWhiteSpace].
    by rewrite decimalValue_safe by lia.
  - unfold pretty, pretty_Z, pretty, pretty_positive, pretty, pretty_N.
    rewrite decide_False by done.
    change ("-" +:+ ?s)%string with (String "-" s).
    unfold StringToNumber.
    rewrite skipWhiteSpace_visible by (by vm_compute).
    change (numericLiteral (String "-" ?s)) with (unsignedDecimal true s).
    rewrite unsignedDecimal_digits by done. cbn [skipWhiteSpace].
    by rewrite decimalValue_safe by lia.
Qed.

Local Close Scope Z_scope.

(** *** Filtering by site *)

Lemma length_filter_map {A B} (f : A → B) (P : B → Prop)
    `{∀ y, Decision (P y)} (l : list A) :
  length (filter P (map f l)) = length (filter (λ x, P (f x)) l).
Proof.
  induction l as [|x l IH]; [done|].
  simpl. rewrite !filter_cons. case_decide; simpl; by rewrite IH.
Qed.

Lemma strictEquals_Num_Int n z :
  strictEquals (Num n) (Num (Int z)) = true ↔ n = Int z.
Proof.
  split.
  - intros H. apply strictEquals_true in H. by injection H.
  - intros ->. by apply bool_decide_eq_true_2.
Qed.

(** A record whose [blog_id] is an integer that a double holds exactly,
    or the decimal string of one, is of site [z] when the [blog_id] is
    [z] or the string of [z]. *)
Lemma blog_id_normalised r z k :
  (Z.abs k ≤ 2 ^ 53)%Z →
  get r "blog_id" = Num (Int k) ∨ get r "blog_id" = Str (pretty k) →
  strictEquals (Num (siteId (createPurchaseObject r))) (Num (Int z)) = true
  ↔ get r "blog_id" = Num (Int z) ∨ get r "blog_id" = Str (pretty z).
Proof.
  intros Hk Hid.
  change (siteId (createPurchaseObject r)) with (ToNumber (get r "blog_id")).
  rewrite strictEquals_Num_Int.
  destruct Hid as [->| ->]; cbn [ToNumber];
    rewrite ?StringToNumber_pretty by done.
  - split; [intros [= ->]; by left|intros [[= ->]|[=]]; done].
  - split; [intros [= ->]; by right|].
    intros [[=]|[= Heq]]. by apply (inj pretty) in Heq as ->.
Qed.

(** C6: the purchases of a site are as many as the raw records whose
    [blog_id], read as a number, is strictly equal to the site asked
    for, and the [siteId] of each of them is that very value. Reading
    as a number sends an integer that a double holds exactly, and the
    decimal string of such an integer, to that integer; a record
    without a [blog_id] is of no site, and a site that is not a number
    has no purchases. So when every record carries its site as such an
    integer or as its decimal string, the purchases of site [z] are the
    view models, in order, of the records whose [blog_id] is [z] or the
    string of [z]. *)
Theorem site_purchases_match_query state site :
  length (getSitePurchases state site)
  = length (filter
      (λ r, strictEquals (Num (ToNumber (get r "blog_id"))) site = true)
      (data (purchases state)))
  ∧ Forall (λ purchase, Num (siteId purchase) = site)
           (getSitePurchases state site)
  ∧ (∀ z, (Z.abs z ≤ 2 ^ 53)%Z →
       ToNumber (Num (Int z)) = Int z ∧ ToNumber (Str (pretty z)) = Int z)
  ∧ (∀ r, r !! "blog_id" = None →
       createPurchaseObject r ∉ getSitePurchases state site)
  ∧ ((∀ n, site ≠ Num n) → getSitePurchases state site = [])
  ∧ (∀ z, site = Num (Int z) →
       Forall (λ r, ∃ k, (Z.abs k ≤ 2 ^ 53)%Z
                         ∧ (get r "blog_id" = Num (Int k)
                            ∨ get r "blog_id" = Str (pretty k)))
              (data (purchases state)) →
       getSitePurchases state site
       = map createPurchaseObject
           (filter (λ r, get r "blog_id" = Num (Int z)
                         ∨ get r "blog_id" = Str (pretty z))
                   (data (purchases state)))).
Proof.
  assert (Forall (λ purchase, Num (siteId purchase) = site)
                 (getSitePurchases state site)) as Hexact.
  { apply Forall_forall. intros purchase Hin.
    apply list_elem_of_filter in Hin as [Heq _].
    by apply strictEquals_true. }
  split; [|split; [done|]].
  { unfold getSitePurchases, getPurchases, createPurchasesArray.
    by rewrite length_filter_map. }
  split.
  { intros z Hz. split; [done|]. by apply StringToNumber_pretty. }
  split.
  { intros r Hnone Hin. apply list_elem_of_filter in Hin as [Heq _].
    change (siteId (createPurchaseObject r))
      with (ToNumber (get r "blog_id")) in Heq.
    unfold get in Heq. by rewrite Hnone in Heq. }
  split.
  { intros Hsite. destruct (getSitePurchases state site) as [|p l]; [done|].
    apply Forall_cons in Hexact as [Hp _]. by destruct (Hsite (siteId p)). }
  intros z -> Hids.
  unfold getSitePurchases, getPurchases, createPurchasesArray.
  induction Hids as [|r l (k & Hk & Hid) _ IH]; [done|].
  pose proof (blog_id_normalised r z k Hk Hid) as Hiff.
  cbn [map]. rewrite !filter_cons.
  destruct (decide (strictEquals _ _ = true)) as [Hyes|Hno];
    destruct (decide (_ ∨ _)) as [Hyes'|Hno'].
  - cbn [map]. by rewrite IH.
  - destruct Hno'. by apply Hiff.
  - destruct Hno. by apply Hiff.
  - done.
Qed.


(** *** One view model per record, one array per call *)

(** C9: [getPurchases] is the assembler mapped over the raw records of
    the state it is given, so there are as many view models as records;
    two calls, even on the same state, hand back two different array
    objects, with the same contents. *)
Theorem one_view_per_record_fresh_array state heap :
  getPurchases state = map createPurchaseObject (data (purchases state))
  ∧ length (getPurchases state) = length (data (purchases state))
  ∧ (callGetPurchases heap state).1
      ≠ (callGetPurchases (callGetPurchases heap state).2 state).1
  ∧ (callGetPurchases (callGetPurchases heap state).2 state).2
      !! (callGetPurchases heap state).1 = Some (getPurchases state)
  ∧ (callGetPurchases (callGetPurchases heap state).2 state).2
      !! (callGetPurchases (callGetPurchases heap state).2 state).1
      = Some (getPurchases state).
Proof.
  split; [done|]. split.
  { unfold getPurchases, createPurchasesArray. apply length_map. }
  unfold callGetPurchases, alloc. simpl. rewrite length_app. simpl.
  split; [lia|]. split.
  - rewrite lookup_app_l by (rewrite length_app; simpl; lia).
    by rewrite list_lookup_middle.
  - by rewrite list_lookup_middle by (rewrite length_app; simpl; lia).
Qed.

(** *** The theorems at work on the fixtures *)

Lemma not_loaded_answers_false_witness :
  hasLoadedUserPurchasesFromServer
    (purchases (stateOf examplePurchases false false)) = false
  ∧ isUserPaid (stateOf examplePurchases false false) (Num (Int 123)) = false
  ∧ hasCancelableUserPurchases (stateOf examplePurchases false false)
      (Num (Int 123)) = false
  ∧ getUserPurchasedPremiumThemes (stateOf examplePurchases false false)
      (Num (Int 123)) = IsFalse.
Proof.
  split; [reflexivity|].
  apply (not_loaded_answers_false (stateOf examplePurchases false false)
           (Num (Int 123))).
  reflexivity.
Defined.

Lemma missing_fields_degrade_witness :
  ∃ view,
    getByPurchaseId (stateOf twoPurchases false true) (Num (Int 2))
      = Some view
    ∧ amount view = NaN ∧ currencyCode view = undefined
    ∧ isRefundable view = false.
Proof.
  destruct (missing_fields_degrade (stateOf twoPurchases false true) 2
              [domainRegistration] premiumPlan [])
    as (view & Hfound & _ & Hnum & Hopt & Hflag & _).
  - reflexivity.
  - apply Forall_singleton. intros Heq. vm_compute in Heq. discriminate.
  - reflexivity.
  - exists view. split; [exact Hfound|]. split; [|split].
    + apply (Hnum "amount"%string amount); [|reflexivity].
      unfold numericFields. do 2 right. left.
    + apply (Hopt "currency_code"%string currencyCode); [|reflexivity].
      unfold optionalFields. right. left.
    + apply (Hflag "is_refundable"%string isRefundable); [|reflexivity].
      unfold flagFields. do 6 right. left.
Defined.

Lemma site_purchases_match_query_witness :
  getSitePurchases (stateOf sitePurchases false false) (Num (Int 1234))
  = map createPurchaseObject (take 2 sitePurchases)
  ∧ ToNumber (Str "1234") = Int 1234.
Proof.
  destruct (site_purchases_match_query (stateOf sitePurchases false false)
              (Num (Int 1234))) as (_ & _ & Hnumber & _ & _ & Hsite).
  split; [|by apply (Hnumber 1234%Z)].
  rewrite (Hsite 1234%Z); [f_equal; by vm_compute|done|].
  repeat apply Forall_cons_2; [..|apply Forall_nil_2].
  - exists 1234%Z. split; [done|]. by right.
  - exists 1234%Z. split; [done|]. by right.
  - exists 123%Z. split; [done|]. by right.
Defined.

End PurchasesFacts.
